(** * MTU journal: the sentence-level synonym annotation pipeline

    A shallow embedding of the synonym pipeline of the journal application:
    - [src/mtu/src/App.js]: the process-wide [SYNONYMS_CACHE], the cached
      lookup [getSynonymsForSentence], the [SynonymText] component
      (mount effect, [loadSentenceSynonyms], [handleWordHover],
      [renderTextWithSynonyms]), the timestamp cell of [NotebookComponent]
      and [loadSession];
    - [src/mtu/src/Backend/custom.js]: the response parser of
      [getSynonymsForSentence].

    Text is modelled by the Standard Library's [string], read as a
    sequence of UTF-16 code units below U+0100; the JavaScript built-ins
    ([split] with a capturing group, [trim], [toLowerCase], [replace],
    [match], [JSON.parse], property reads on plain objects) are written
    out on that domain. *)

From Stdlib Require Import Ascii QArith Qminmax Lqa.
From stdpp Require Import base option list strings gmap.

#[local] Set Warnings "-register-all".

Local Close Scope Q_scope.
Local Open Scope string_scope.
Local Open Scope nat_scope.
Local Open Scope list_scope.

(** ** Strings *)

Module JsString.

(** Code unit of a character. *)
Definition code (c : ascii) : nat := nat_of_ascii c.

(** [\s] and the characters removed by [trim], among code units below
    U+0100: TAB, LF, VT, FF, CR, SPACE and NO-BREAK SPACE. *)
Definition is_space (c : ascii) : bool :=
  let n := code c in
  ((9 <=? n) && (n <=? 13)) || (n =? 32) || (n =? 160).

(** The class [[.!?]] of the sentence splitter. *)
Definition is_sentence_delim (c : ascii) : bool :=
  (c =? ".")%char || (c =? "!")%char || (c =? "?")%char.

(** The class stripped from words: full stop, comma, exclamation and
    question marks, semicolon, colon, double quote (code 34) and the two
    round brackets. *)
Definition is_punct (c : ascii) : bool :=
  (c =? ".")%char || (c =? ",")%char || (c =? "!")%char || (c =? "?")%char
  || (c =? ";")%char || (c =? ":")%char || (code c =? 34)
  || (c =? "(")%char || (c =? ")")%char.

Definition not_space (c : ascii) : bool := negb (is_space c).
Definition not_punct (c : ascii) : bool := negb (is_punct c).

(** [toLowerCase] on one code unit: A-Z, and the Latin-1 capitals
    U+00C0..U+00DE except the multiplication sign U+00D7, move up by 32. *)
Definition lower_char (c : ascii) : ascii :=
  let n := code c in
  if ((65 <=? n) && (n <=? 90))
     || ((192 <=? n) && (n <=? 222) && negb (n =? 215))
  then ascii_of_nat (n + 32) else c.

Fixpoint map_chars (f : ascii -> ascii) (s : string) : string :=
  match s with
  | EmptyString => EmptyString
  | String c s' => String (f c) (map_chars f s')
  end.

Fixpoint filter_chars (keep : ascii -> bool) (s : string) : string :=
  match s with
  | EmptyString => EmptyString
  | String c s' =>
      if keep c then String c (filter_chars keep s') else filter_chars keep s'
  end.

Fixpoint all_chars (p : ascii -> bool) (s : string) : bool :=
  match s with
  | EmptyString => true
  | String c s' => p c && all_chars p s'
  end.

(** [s.toLowerCase()] on the modelled text.  Below U+0100 no code unit
    has a lowercase form of several units or one that depends on its
    neighbours, so the conversion goes unit by unit.  Beyond that range
    it does not (a capital sigma is lowered by its place in the word):
    what is proved with this definition is proved of text below U+0100. *)
Definition toLowerCase (s : string) : string := map_chars lower_char s.

(** [s.replace(re, '')] for the global regular expression [re] on the
    punctuation class. *)
Definition strip_punct (s : string) : string :=
  filter_chars (fun c => negb (is_punct c)) s.

(** [s.replace(/[\n\r\t]/g, '')] *)
Definition strip_breaks (s : string) : string :=
  filter_chars (fun c => negb ((code c =? 10) || (code c =? 13) || (code c =? 9))) s.

Fixpoint trimStart (s : string) : string :=
  match s with
  | EmptyString => EmptyString
  | String c s' => if is_space c then trimStart s' else s
  end.

(** Removes the trailing white space: a character is dropped when it is
    white space and nothing but white space follows it. *)
Fixpoint trimEnd (s : string) : string :=
  match s with
  | EmptyString => EmptyString
  | String c s' =>
      match trimEnd s' with
      | EmptyString => if is_space c then EmptyString else String c EmptyString
      | t => String c t
      end
  end.

(** [s.trim()] *)
Definition trim (s : string) : string := trimEnd (trimStart s).

(** ToBoolean of a string: the empty string is the only falsy one. *)
Definition truthy_string (s : string) : bool :=
  match s with EmptyString => false | _ => true end.

(** [s.split(/(C+)/)] for a character class [C]: the pieces between the
    maximal runs of [C], with each run kept as an element of its own (the
    capturing group).  The scan carries the element being read, [cur], and
    whether that element is a run of [C]; at the end of the input the
    element being read is pushed, after a run followed by the empty last
    piece. *)
Fixpoint split_scan (C : ascii -> bool) (in_run : bool) (cur s : string)
  : list string :=
  match s with
  | EmptyString => if in_run then [cur; EmptyString] else [cur]
  | String c s' =>
      if C c then
        if in_run then split_scan C true (cur +:+ String c EmptyString) s'
        else cur :: split_scan C true (String c EmptyString) s'
      else
        if in_run then cur :: split_scan C false (String c EmptyString) s'
        else split_scan C false (cur +:+ String c EmptyString) s'
  end.

Definition split_capture (C : ascii -> bool) (s : string) : list string :=
  split_scan C false EmptyString s.

(** [/^[.!?]+$/.test(s)] *)
Definition test_delims_only (s : string) : bool :=
  truthy_string s && all_chars is_sentence_delim s.

(** [parts.join('')] *)
Definition join (parts : list string) : string :=
  foldr String.append EmptyString parts.

End JsString.

(** ** JavaScript values *)

Module JsValue.
Import JsString.

(** The values that reach the pipeline: what [JSON.parse] builds, plus
    [undefined] and the built-in objects a property read on a plain object
    reaches through [Object.prototype].  A number keeps its source text;
    an object keeps its own properties in insertion order. *)
Inductive jsval : Type :=
  | JUndefined
  | JNull
  | JBool (b : bool)
  | JNum (lexeme : string)
  | JStr (s : string)
  | JArr (elts : list jsval)
  | JObj (props : list (string * jsval))
  | JNative (name : string).

(** The own properties of a plain object. *)
Abbreviation jsobject := (list (string * jsval)).

Inductive js_error : Type :=
  | SyntaxError
  | TypeError
  | ServiceError.

(** Evaluation of an expression: a value or a thrown error. *)
Inductive completion (A : Type) : Type :=
  | Normal (a : A)
  | Throw (e : js_error).
Arguments Normal {A} a.
Arguments Throw {A} e.

(** Execution of a block of statements inside a function: it falls
    through to the next statement, returns from the function, or throws. *)
Inductive flow : Type :=
  | Next
  | Return (v : jsval)
  | Raise (e : js_error).

(** [try { body } catch { handler }] *)
Definition try_catch (body : flow) (handler : js_error -> flow) : flow :=
  match body with
  | Raise e => handler e
  | f => f
  end.

(** [first; second] *)
Definition and_then (first second : flow) : flow :=
  match first with
  | Next => second
  | f => f
  end.

(** [const x = expr; rest] *)
Definition eval {A : Type} (expr : completion A) (rest : A -> flow) : flow :=
  match expr with
  | Normal a => rest a
  | Throw e => Raise e
  end.

(** The digits at the head of [s] read in base ten after [acc], how many
    they are, and what follows them. *)
Fixpoint read_digits (acc : Z) (count : Z) (s : string) : Z * Z * string :=
  match s with
  | EmptyString => (acc, count, EmptyString)
  | String c r =>
      let n := nat_of_ascii c in
      if (48 <=? n) && (n <=? 57)
      then read_digits (10 * acc + Z.of_nat (n - 48))%Z (count + 1)%Z r
      else (acc, count, s)
  end.

(** The digits [m] of a number lexeme, sign and point left out, and the
    power [k] of ten they are divided by: the lexeme stands for
    [m / 10^k] up to its sign. *)
Definition number_parts (lexeme : string) : Z * Z :=
  let unsigned :=
    match lexeme with
    | String c r => if (c =? "-")%char then r else lexeme
    | EmptyString => lexeme
    end in
  let '(int, _, after_int) := read_digits 0 0 unsigned in
  let '(m, fraction_digits, after_fraction) :=
    match after_int with
    | String c r => if (c =? ".")%char then read_digits int 0 r
                    else (int, 0%Z, after_int)
    | EmptyString => (int, 0%Z, after_int)
    end in
  let exponent :=
    match after_fraction with
    | String c r =>
        if (c =? "e")%char || (c =? "E")%char then
          match r with
          | String sign r' =>
              if (sign =? "-")%char then (- (read_digits 0 0 r').1.1)%Z
              else if (sign =? "+")%char then (read_digits 0 0 r').1.1
              else (read_digits 0 0 r).1.1
          | EmptyString => 0%Z
          end
        else 0%Z
    | EmptyString => 0%Z
    end in
  (m, (fraction_digits - exponent)%Z).

(** A number is falsy when its value as a double is zero: its digits are
    all 0, or it is so small that it rounds to zero.  The nearest double
    of a positive real is zero up to half the least positive double,
    [2^-1075], the tie included (round to nearest, ties to even). *)
Definition number_is_zero (lexeme : string) : bool :=
  let '(m, k) := number_parts lexeme in
  if (m =? 0)%Z then true
  else if (k <=? 0)%Z then false
  else (m * 2 ^ 1075 <=? 10 ^ k)%Z.

(** ToBoolean *)
Definition truthy (v : jsval) : bool :=
  match v with
  | JUndefined | JNull => false
  | JBool b => b
  | JNum lexeme => negb (number_is_zero lexeme)
  | JStr s => truthy_string s
  | JArr _ | JObj _ | JNative _ => true
  end.

Definition typeof (v : jsval) : string :=
  match v with
  | JUndefined => "undefined"
  | JBool _ => "boolean"
  | JNum _ => "number"
  | JStr _ => "string"
  | JNull | JArr _ | JObj _ => "object"
  | JNative name => if String.eqb name "__proto__" then "object" else "function"
  end.

(** [Object.keys(v).length] for a value [v] that is not null or undefined
    (each call in the source stands behind a truthiness test). *)
Definition Object_keys_length (v : jsval) : nat :=
  match v with
  | JArr elts => length elts
  | JObj props => length props
  | JStr s => String.length s
  | _ => 0
  end.

(** [v && typeof v === 'object' && Object.keys(v).length > 0] *)
Definition nonempty_object (v : jsval) : bool :=
  truthy v && String.eqb (typeof v) "object" && (0 <? Object_keys_length v).

(** [v && Object.keys(v).length > 0] *)
Definition truthy_with_keys (v : jsval) : bool :=
  truthy v && (0 <? Object_keys_length v).

Fixpoint own_property (k : string) (props : jsobject) : option jsval :=
  match props with
  | [] => None
  | (k', v) :: rest => if String.eqb k' k then Some v else own_property k rest
  end.

(** The property names of [Object.prototype]. *)
Definition Object_prototype : list string :=
  [ "constructor"; "__defineGetter__"; "__defineSetter__"; "hasOwnProperty";
    "__lookupGetter__"; "__lookupSetter__"; "isPrototypeOf";
    "propertyIsEnumerable"; "toString"; "valueOf"; "__proto__";
    "toLocaleString" ].

(** [o[k]] on a plain object [o]: the own property when there is one,
    otherwise the property inherited from [Object.prototype], otherwise
    [undefined]. *)
Definition Get (o : jsobject) (k : string) : jsval :=
  match own_property k o with
  | Some v => v
  | None =>
      if existsb (String.eqb k) Object_prototype then JNative k
      else JUndefined
  end.

(** [o[k] = v] as [JSON.parse] does it: a repeated name keeps its place and
    takes the last value. *)
Fixpoint obj_set (k : string) (v : jsval) (props : jsobject) : jsobject :=
  match props with
  | [] => [(k, v)]
  | (k', v') :: rest =>
      if String.eqb k' k then (k, v) :: rest else (k', v') :: obj_set k v rest
  end.

Definition is_object (v : jsval) : Prop := exists props, v = JObj props.

Definition empty_object : jsval := JObj [].

End JsValue.

(** ** [JSON.parse] *)

Module Json.
Import JsString JsValue.

Definition is_ws (c : ascii) : bool :=
  let n := code c in (n =? 32) || (n =? 9) || (n =? 10) || (n =? 13).

Definition is_digit (c : ascii) : bool :=
  let n := code c in (48 <=? n) && (n <=? 57).

Fixpoint skip_ws (s : string) : string :=
  match s with
  | EmptyString => EmptyString
  | String c s' => if is_ws c then skip_ws s' else s
  end.

(** The longest prefix of digits, and what follows it. *)
Fixpoint take_digits (s : string) : string * string :=
  match s with
  | EmptyString => (EmptyString, EmptyString)
  | String c s' =>
      if is_digit c then let '(ds, r) := take_digits s' in (String c ds, r)
      else (EmptyString, s)
  end.

Definition hex_value (c : ascii) : option nat :=
  let n := code c in
  if (48 <=? n) && (n <=? 57) then Some (n - 48)
  else if (65 <=? n) && (n <=? 70) then Some (n - 55)
  else if (97 <=? n) && (n <=? 102) then Some (n - 87)
  else None.

Definition hex4 (a b c d : ascii) : option nat :=
  match hex_value a, hex_value b, hex_value c, hex_value d with
  | Some x, Some y, Some z, Some w => Some (((x * 16 + y) * 16 + z) * 16 + w)
  | _, _, _, _ => None
  end.

(** The character a one-letter escape stands for. *)
Definition unescape (e : ascii) : option ascii :=
  let n := code e in
  if (n =? 34) || (n =? 92) || (n =? 47) then Some e
  else if (e =? "b")%char then Some (ascii_of_nat 8)
  else if (e =? "f")%char then Some (ascii_of_nat 12)
  else if (e =? "n")%char then Some (ascii_of_nat 10)
  else if (e =? "r")%char then Some (ascii_of_nat 13)
  else if (e =? "t")%char then Some (ascii_of_nat 9)
  else None.

Definition cons_char (c : ascii) (r : option (string * string))
  : option (string * string) :=
  match r with
  | Some (body, rest) => Some (String c body, rest)
  | None => None
  end.

(** A string literal after its opening quote: the decoded text and what
    follows the closing quote.  Every escape [\uXXXX] is accepted and
    stands for one code unit, as in [JSON.parse]; a unit beyond U+00FF has
    no character in the modelled alphabet and is written by its low byte,
    so that the shape of the parsed value and the length of its strings
    are the real ones while the text of such a string is not. *)
Fixpoint parse_chars (s : string) : option (string * string) :=
  match s with
  | EmptyString => None
  | String c s' =>
      if code c =? 34 then Some (EmptyString, s')
      else if code c =? 92 then
        match s' with
        | EmptyString => None
        | String e s'' =>
            if (e =? "u")%char then
              match s'' with
              | String h1 (String h2 (String h3 (String h4 r))) =>
                  match hex4 h1 h2 h3 h4 with
                  | Some n => cons_char (ascii_of_nat n) (parse_chars r)
                  | None => None
                  end
              | _ => None
              end
            else
              match unescape e with
              | Some ch => cons_char ch (parse_chars s'')
              | None => None
              end
        end
      else if code c <? 32 then None
      else cons_char c (parse_chars s')
  end.

(** [strip_prefix p s] is what follows [p] in [s] when [s] starts with [p]. *)
Fixpoint strip_prefix (p s : string) : option string :=
  match p, s with
  | EmptyString, _ => Some s
  | String a p', String b s' => if (a =? b)%char then strip_prefix p' s' else None
  | String _ _, EmptyString => None
  end.

(** A number: an optional minus sign, an integer part without a leading
    zero, an optional fraction, an optional exponent. *)
Definition parse_number (s : string) : option (string * string) :=
  let '(sign, s1) :=
    match strip_prefix "-" s with
    | Some r => ("-", r)
    | None => (EmptyString, s)
    end in
  let '(int, s2) := take_digits s1 in
  match int with
  | EmptyString => None
  | String d more =>
      if (d =? "0")%char && truthy_string more then None
      else
        let frac :=
          match strip_prefix "." s2 with
          | Some r =>
              let '(ds, r') := take_digits r in
              if truthy_string ds then Some ("." +:+ ds, r') else None
          | None => Some (EmptyString, s2)
          end in
        match frac with
        | None => None
        | Some (f, s3) =>
            let after_e :=
              match s3 with
              | String c r => if (c =? "e")%char || (c =? "E")%char
                              then Some (String c EmptyString, r) else None
              | EmptyString => None
              end in
            match after_e with
            | None => Some (sign +:+ int +:+ f, s3)
            | Some (e, r) =>
                let '(esign, r1) :=
                  match r with
                  | String c r' => if (c =? "+")%char || (c =? "-")%char
                                   then (String c EmptyString, r') else (EmptyString, r)
                  | EmptyString => (EmptyString, r)
                  end in
                let '(ds, r2) := take_digits r1 in
                if truthy_string ds
                then Some (sign +:+ int +:+ f +:+ e +:+ esign +:+ ds, r2)
                else None
            end
        end
  end.

(** Recursive descent on the value grammar; [fuel] bounds the depth of
    the calls. *)
Fixpoint parse_value (fuel : nat) (s : string) : option (jsval * string) :=
  match fuel with
  | O => None
  | S fuel' =>
      match skip_ws s with
      | EmptyString => None
      | String c r =>
          if (c =? "{")%char then
            match skip_ws r with
            | String c' r' =>
                if (c' =? "}")%char then Some (JObj [], r')
                else parse_members fuel' [] r
            | EmptyString => None
            end
          else if (c =? "[")%char then
            match skip_ws r with
            | String c' r' =>
                if (c' =? "]")%char then Some (JArr [], r')
                else parse_elements fuel' [] r
            | EmptyString => None
            end
          else if code c =? 34 then
            match parse_chars r with
            | Some (str, r') => Some (JStr str, r')
            | None => None
            end
          else if (c =? "-")%char || is_digit c then
            match parse_number (String c r) with
            | Some (lexeme, r') => Some (JNum lexeme, r')
            | None => None
            end
          else
            match strip_prefix "true" (String c r),
                  strip_prefix "false" (String c r),
                  strip_prefix "null" (String c r) with
            | Some r', _, _ => Some (JBool true, r')
            | _, Some r', _ => Some (JBool false, r')
            | _, _, Some r' => Some (JNull, r')
            | None, None, None => None
            end
      end
  end

with parse_members (fuel : nat) (acc : jsobject) (s : string)
  : option (jsval * string) :=
  match fuel with
  | O => None
  | S fuel' =>
      match skip_ws s with
      | EmptyString => None
      | String q r =>
          if code q =? 34 then
            match parse_chars r with
            | None => None
            | Some (k, r1) =>
                match skip_ws r1 with
                | EmptyString => None
                | String colon r2 =>
                    if (colon =? ":")%char then
                      match parse_value fuel' r2 with
                      | None => None
                      | Some (v, r3) =>
                          match skip_ws r3 with
                          | EmptyString => None
                          | String sep r4 =>
                              if (sep =? ",")%char
                              then parse_members fuel' (obj_set k v acc) r4
                              else if (sep =? "}")%char
                              then Some (JObj (obj_set k v acc), r4)
                              else None
                          end
                      end
                    else None
                end
            end
          else None
      end
  end

with parse_elements (fuel : nat) (acc : list jsval) (s : string)
  : option (jsval * string) :=
  match fuel with
  | O => None
  | S fuel' =>
      match parse_value fuel' s with
      | None => None
      | Some (v, r) =>
          match skip_ws r with
          | EmptyString => None
          | String sep r' =>
              if (sep =? ",")%char then parse_elements fuel' (acc ++ [v]) r'
              else if (sep =? "]")%char then Some (JArr (acc ++ [v]), r')
              else None
          end
      end
  end.

(** [JSON.parse(text)]: one value, then nothing but white space; anything
    else throws a SyntaxError. *)
Definition JSON_parse (text : string) : completion jsval :=
  match parse_value (2 * String.length text + 2) text with
  | Some (v, rest) =>
      match skip_ws rest with
      | EmptyString => Normal v
      | String _ _ => Throw SyntaxError
      end
  | None => Throw SyntaxError
  end.

(** Two amounts of fuel give the same parse of the texts that are short
    for the smaller amount. *)
Definition fuel_agree (f1 f2 : nat) : Prop :=
  (forall s, 2 * String.length s < f2 -> parse_value f1 s = parse_value f2 s)
  /\ (forall acc s, 2 * String.length s < f2 ->
        parse_members f1 acc s = parse_members f2 acc s)
  /\ (forall acc s, 2 * String.length s + 1 < f2 ->
        parse_elements f1 acc s = parse_elements f2 acc s).

End Json.

(** ** The synonym provider ([Backend/custom.js]) *)

Module CustomAIService.
Import JsString JsValue Json.

(** The shortest prefix that ends with a closing brace. *)
Fixpoint until_close (s : string) : option string :=
  match s with
  | EmptyString => None
  | String c s' =>
      if (c =? "}")%char then Some (String c EmptyString)
      else String c <$> until_close s'
  end.

(** [s.match(/\{[\s\S]*?\}/)]: from the first opening brace that has a
    closing brace after it, lazily up to that closing brace. *)
Fixpoint match_lazy_object (s : string) : option string :=
  match s with
  | EmptyString => None
  | String c s' =>
      if (c =? "{")%char then
        match until_close s' with
        | Some body => Some (String c body)
        | None => match_lazy_object s'
        end
      else match_lazy_object s'
  end.

(** [[^{}]*\}] at the start of [s]. *)
Fixpoint flat_body (s : string) : option string :=
  match s with
  | EmptyString => None
  | String c s' =>
      if (c =? "}")%char then Some (String c EmptyString)
      else if (c =? "{")%char then None
      else String c <$> flat_body s'
  end.

(** [s.match(/\{[^{}]*\}/)]: the first brace pair with no brace inside. *)
Fixpoint match_flat_object (s : string) : option string :=
  match s with
  | EmptyString => None
  | String c s' =>
      if (c =? "{")%char then
        match flat_body s' with
        | Some body => Some (String c body)
        | None => match_flat_object s'
        end
      else match_flat_object s'
  end.

(** [response.match(re)] where [response] is the [text] of the service's
    answer, a string or [undefined]: a method call on [undefined] throws. *)
Definition String_match (re : string -> option string) (response : option string)
  : completion (option string) :=
  match response with
  | Some r => Normal (re r)
  | None => Throw TypeError
  end.

Definition String_replace_breaks (response : option string) : completion (option string) :=
  match response with
  | Some r => Normal (Some (strip_breaks r))
  | None => Throw TypeError
  end.

(** [getSynonymsForSentence], from the answer of [AIService.generateText]
    on (the prompt built around the sentence): [generateText] is what the
    awaited call completes with, a thrown error when the service fails. *)
Definition getSynonymsForSentence (generateText : completion (option string))
  : flow :=
  try_catch
    (eval generateText (fun response =>
     eval (String_match match_lazy_object response) (fun jsonMatch =>
     and_then
       (match jsonMatch with
        | Some m =>
            try_catch
              (eval (JSON_parse m) (fun parsed =>
               if nonempty_object parsed then Return parsed else Next))
              (fun _ =>
               eval (String_replace_breaks response) (fun cleaned =>
               eval (String_match match_flat_object cleaned) (fun cleanJson =>
               match cleanJson with
               | Some cm =>
                   try_catch
                     (eval (JSON_parse cm) (fun v => Return v))
                     (fun _ => Return empty_object)
               | None => Next
               end)))
        | None => Next
        end)
       (Return empty_object))))
    (fun _ => Return empty_object).

End CustomAIService.

(** ** The [SynonymText] component: rendering ([App.js]) *)

Module SynonymText.
Import JsString JsValue.

(** What a word of a sentence is rendered as: a plain [span], or the
    [synonym-wrapper]/[synonym-word] pair that reacts to the pointer. *)
Inductive word_span : Type :=
  | PlainWord (word : string)
  | SynonymWord (word : string).

(** What an element of the sentence split is rendered as: a [span] around
    the element itself, or a [span] around the spans of its words. *)
Inductive sentence_span : Type :=
  | SentenceText (sentence : string)
  | SentenceWords (words : list word_span).

(** The word normalization of [renderTextWithSynonyms]:
    strip the punctuation, then lowercase. *)
Definition cleanWord (word : string) : string :=
  toLowerCase (strip_punct word).

(** The callback of [words.map]. *)
Definition render_word (enableSynonyms : bool) (sentenceSynonyms : jsobject)
    (word : string) : word_span :=
  if enableSynonyms
     && truthy (Get sentenceSynonyms (cleanWord word))
     && truthy_string (trim word)
  then SynonymWord word
  else PlainWord word.

(** The callback of [sentences.map]. *)
Definition render_sentence (enableSynonyms : bool) (sentenceSynonyms : jsobject)
    (sentence : string) : sentence_span :=
  if negb (truthy_string (trim sentence)) || test_delims_only sentence
  then SentenceText sentence
  else SentenceWords
         (render_word enableSynonyms sentenceSynonyms
            <$> split_capture is_space sentence).

Definition renderTextWithSynonyms (enableSynonyms : bool)
    (sentenceSynonyms : jsobject) (text : string) : list sentence_span :=
  render_sentence enableSynonyms sentenceSynonyms
    <$> split_capture is_sentence_delim text.

(** The text of a rendered word. *)
Definition word_text (w : word_span) : string :=
  match w with
  | PlainWord word | SynonymWord word => word
  end.

(** The tokens of a rendered line: the texts of its innermost spans, in
    document order. *)
Definition sentence_tokens (s : sentence_span) : list string :=
  match s with
  | SentenceText sentence => [sentence]
  | SentenceWords words => word_text <$> words
  end.

Definition rendered_tokens (spans : list sentence_span) : list string :=
  concat (sentence_tokens <$> spans).

(** The words of a rendered line that react to the pointer. *)
Definition interactive_words (spans : list sentence_span) : list string :=
  concat ((fun s =>
             match s with
             | SentenceText _ => []
             | SentenceWords words =>
                 omap (fun w => match w with
                                | SynonymWord word => Some word
                                | PlainWord _ => None
                                end) words
             end) <$> spans).

End SynonymText.

(** ** The [SynonymText] component: hovering ([App.js]) *)

Module Hover.
Import JsString JsValue.
Local Open Scope Q_scope.

(** The part of a [DOMRect] the handler reads.  Lengths are rationals: the
    arithmetic of [handleWordHover] is taken exactly. *)
Record DOMRect : Type := {
  rect_left : Q;
  rect_top : Q;
  rect_width : Q
}.

Record position : Type := {
  x : Q;
  y : Q
}.

(** [Math.max(140, synonymText.length * 6.5 + 70)] *)
Definition tooltipEstimatedWidth (synonymText_length : nat) : Q :=
  Qmax 140 (inject_Z (Z.of_nat synonymText_length) * (13 # 2) + 70).

(** The position handed to [setTooltipPosition], from the bounding boxes of
    the hovered word and of its [.entry-content] ancestor, the width of the
    viewport and the length of the joined synonym text. *)
Definition tooltipPosition (rect parentRect : DOMRect) (viewportWidth : Q)
    (synonymText_length : nat) : position :=
  let x := rect_left rect + rect_width rect / 2 - rect_left parentRect in
  let y := rect_top rect - rect_top parentRect - 10 in
  let tooltipEstimatedWidth := tooltipEstimatedWidth synonymText_length in
  let tooltipLeftEdge := rect_left rect - tooltipEstimatedWidth / 2 in
  let tooltipRightEdge := rect_left rect + tooltipEstimatedWidth / 2 in
  let x :=
    if Qlt_le_dec tooltipLeftEdge 10
    then 10 - rect_left parentRect + tooltipEstimatedWidth / 2
    else if Qlt_le_dec (viewportWidth - 10) tooltipRightEdge
    then (viewportWidth - 10) - rect_left parentRect - tooltipEstimatedWidth / 2
    else x in
  {| x := x; y := y |}.

(** The estimated footprint of the tooltip in viewport coordinates: the
    tooltip is placed at [left: x] inside the entry and shifted by
    [translateX(-50%)], so it is centred on [parentRect.left + x]. *)
Definition footprint_left (parentRect : DOMRect) (p : position)
    (synonymText_length : nat) : Q :=
  rect_left parentRect + x p - tooltipEstimatedWidth synonymText_length / 2.

Definition footprint_right (parentRect : DOMRect) (p : position)
    (synonymText_length : nat) : Q :=
  rect_left parentRect + x p + tooltipEstimatedWidth synonymText_length / 2.

(** What a call of the handler does: it returns without touching the
    state; it sets the hovered word, its synonyms and the tooltip position;
    or it throws after the first two were set. *)
Inductive hover_outcome : Type :=
  | NoUpdate
  | Hovered (hoveredWord : string) (synonyms : jsval) (tooltipPosition : position)
  | HoverThrows (hoveredWord : string) (synonyms : jsval) (e : js_error).

(** The word normalization of [handleWordHover]: lowercase, then strip
    the punctuation. *)
Definition cleanWord (word : string) : string :=
  strip_punct (toLowerCase word).

Section HandleWordHover.

(** The length of [elts.join(sep)] for the three-unit separator of the
    tooltip (space, bullet, space): the built-in conversion of the
    elements to text is left to the caller. *)
Variable Array_join_length : list jsval -> nat.

(** [wordSynonyms.join(sep).length]: only an array has the method. *)
Definition join_length (wordSynonyms : jsval) : completion nat :=
  match wordSynonyms with
  | JArr elts => Normal (Array_join_length elts)
  | _ => Throw TypeError
  end.

(** [handleWordHover(e, word)] *)
Definition handleWordHover (enableSynonyms : bool) (sentenceSynonyms : jsobject)
    (rect parentRect : DOMRect) (viewportWidth : Q) (word : string)
  : hover_outcome :=
  if negb enableSynonyms then NoUpdate
  else
    let cleanWord := cleanWord word in
    if truthy (Get sentenceSynonyms cleanWord) then
      let wordSynonyms := Get sentenceSynonyms cleanWord in
      match join_length wordSynonyms with
      | Normal synonymText_length =>
          Hovered cleanWord wordSynonyms
            (tooltipPosition rect parentRect viewportWidth synonymText_length)
      | Throw e => HoverThrows cleanWord wordSynonyms e
      end
    else NoUpdate.

End HandleWordHover.

(** The text length of an array element that is a string; [join] on an
    array of strings (the values of a synonym map) gives the lengths of
    the strings and three code units between two neighbours. *)
Definition element_length (v : jsval) : nat :=
  match v with
  | JStr s => String.length s
  | _ => 0%nat
  end.

Definition strings_join_length (elts : list jsval) : nat :=
  (sum_list (element_length <$> elts) + 3 * (length elts - 1))%nat.

End Hover.

(** ** The cached lookup and the loading of a component ([App.js]) *)

Module App.
Import JsString JsValue.

(** The state of one mounted [SynonymText]: its props, the ref
    [isLoadingRef] and the state [sentenceSynonyms]. *)
Record component : Type := {
  text : string;
  enableSynonyms : bool;
  isLoadingRef : bool;
  sentenceSynonyms : jsval
}.

(** The module-level cache, the mounted components, and the log of the
    sentences handed to [CustomAIService.getSynonymsForSentence], one entry
    per call, in the order of the calls. *)
Record world : Type := {
  SYNONYMS_CACHE : gmap string jsval;
  provider_calls : list string;
  components : gmap nat component
}.

Definition set_cache (cache : gmap string jsval) (w : world) : world :=
  {| SYNONYMS_CACHE := cache;
     provider_calls := provider_calls w;
     components := components w |}.

Definition call_provider (sentence : string) (w : world) : world :=
  {| SYNONYMS_CACHE := SYNONYMS_CACHE w;
     provider_calls := provider_calls w ++ [sentence];
     components := components w |}.

Definition set_component (id : nat) (c : component) (w : world) : world :=
  {| SYNONYMS_CACHE := SYNONYMS_CACHE w;
     provider_calls := provider_calls w;
     components := <[id := c]> (components w) |}.

Definition set_isLoadingRef (b : bool) (c : component) : component :=
  {| text := text c; enableSynonyms := enableSynonyms c;
     isLoadingRef := b; sentenceSynonyms := sentenceSynonyms c |}.

Definition setSentenceSynonyms (v : jsval) (c : component) : component :=
  {| text := text c; enableSynonyms := enableSynonyms c;
     isLoadingRef := isLoadingRef c; sentenceSynonyms := v |}.

(** [sentence.toLowerCase().trim()] *)
Definition cacheKey (sentence : string) : string :=
  trim (toLowerCase sentence).

(** What an async call has reached when it first gives control back:
    its result, or the [await] of the provider. *)
Inductive lookup_state : Type :=
  | Resolved (v : jsval)
  | AwaitingProvider.

(** What the caller of an async function gets from the run of a body. *)
Definition promise_of (body : flow) : completion jsval :=
  match body with
  | Return v => Normal v
  | Next => Normal JUndefined
  | Raise e => Throw e
  end.

(** [getSynonymsForSentence(sentence)] up to its [await]: the cache test
    and, on a miss, the call of the provider, which sends the request
    before it gives control back. *)
Definition getSynonymsForSentence_start (sentence : string) (w : world)
  : world * lookup_state :=
  let cacheKey := cacheKey sentence in
  match SYNONYMS_CACHE w !! cacheKey with
  | Some cached => (w, Resolved cached)
  | None => (call_provider sentence w, AwaitingProvider)
  end.

(** [getSynonymsForSentence(sentence)] after its [await], with what the
    provider's promise settled to. *)
Definition getSynonymsForSentence_resume (sentence : string)
    (synonymsObject : completion jsval) (w : world) : world * jsval :=
  match synonymsObject with
  | Normal synonymsObject =>
      if nonempty_object synonymsObject
      then (set_cache (<[cacheKey sentence := synonymsObject]> (SYNONYMS_CACHE w)) w,
            synonymsObject)
      else (w, empty_object)
  | Throw _ => (w, empty_object)
  end.

(** A whole lookup with nothing in between: [generateText] is what the
    generative service answers if it is asked. *)
Definition getSynonymsForSentence (sentence : string)
    (generateText : completion (option string)) (w : world) : world * jsval :=
  match getSynonymsForSentence_start sentence w with
  | (w', Resolved v) => (w', v)
  | (w', AwaitingProvider) =>
      getSynonymsForSentence_resume sentence
        (promise_of (CustomAIService.getSynonymsForSentence generateText)) w'
  end.

(** Lookups of one sentence, one after the other, each with its own
    answer of the service. *)
Fixpoint lookups (sentence : string)
    (answers : list (completion (option string))) (w : world) : world :=
  match answers with
  | [] => w
  | generateText :: rest =>
      lookups sentence rest (getSynonymsForSentence sentence generateText w).1
  end.

(** [loadSentenceSynonyms()] of the component [id] up to its [await]:
    [None] when the guard returns at once. *)
Definition loadSentenceSynonyms_start (id : nat) (w : world)
  : world * option lookup_state :=
  match components w !! id with
  | None => (w, None)
  | Some c =>
      if negb (truthy_string (trim (text c))) || isLoadingRef c then (w, None)
      else
        let w := set_component id (set_isLoadingRef true c) w in
        let '(w, state) := getSynonymsForSentence_start (text c) w in
        (w, Some state)
  end.

(** [loadSentenceSynonyms()] after its [await]; a component that is gone
    takes no state. *)
Definition loadSentenceSynonyms_finish (id : nat) (synonymsData : jsval)
    (w : world) : world :=
  match components w !! id with
  | None => w
  | Some c =>
      let c := if truthy_with_keys synonymsData
               then setSentenceSynonyms synonymsData c else c in
      set_component id (set_isLoadingRef false c) w
  end.

(** The effect of [SynonymText] on [text] and [enableSynonyms]. *)
Definition useEffect_synonyms (id : nat) (w : world)
  : world * option lookup_state :=
  match components w !! id with
  | None => (w, None)
  | Some c =>
      if enableSynonyms c && truthy_string (text c)
         && truthy_string (trim (text c)) && negb (isLoadingRef c)
      then
        match SYNONYMS_CACHE w !! cacheKey (text c) with
        | Some cached => (set_component id (setSentenceSynonyms cached c) w, None)
        | None => loadSentenceSynonyms_start id w
        end
      else (w, None)
  end.

(** A mapping with at least one key. *)
Definition nonempty_mapping (v : jsval) : Prop :=
  exists props, v = JObj props /\ props <> [].

(** Every cached value is a mapping with at least one key. *)
Definition cache_nonempty (cache : gmap string jsval) : Prop :=
  forall key v, cache !! key = Some v -> nonempty_mapping v.

(** The service's answer makes the provider return the empty mapping. *)
Definition no_suggestions (generateText : completion (option string)) : Prop :=
  CustomAIService.getSynonymsForSentence generateText = Return empty_object.

End App.

(** ** Sessions: timestamps and [loadSession] ([App.js]) *)

Module Session.
Import JsString JsValue.

(** A [Date] object: a time value in milliseconds, or the invalid date
    (whose [getTime()] is NaN). *)
Inductive JsDate : Type :=
  | ValidDate (ms : Z)
  | InvalidDate.

(** The [timestamp] field of an entry in memory: a [Date] object, or a
    value that is not one (a string, or [undefined]). *)
Inductive timestamp_field : Type :=
  | DateObject (d : JsDate)
  | NotDate (raw : option string).

(** An entry, with the type of its [timestamp] field: [option string] in
    the store (an ISO string, or no field), [timestamp_field] in memory. *)
Record entry (T : Type) : Type := {
  id : Z;
  text : string;
  timestamp : T;
  colorIndex : option Z
}.
Arguments id {T} e.
Arguments text {T} e.
Arguments timestamp {T} e.
Arguments colorIndex {T} e.

Record message : Type := {
  role : string;
  content : string
}.

(** A stored session, as [DatabaseService.getNotebook] returns it; a
    field may be missing. *)
Record sessionData : Type := {
  stored_leftEntries : option (list (entry (option string)));
  stored_rightEntries : option (list (entry (option string)));
  stored_conversationHistory : option (list message);
  vocabularyData : option jsobject
}.

(** The state of [App] that [loadSession] writes, the alerts it raised,
    and the module-level cache. *)
Record app_state : Type := {
  leftEntries : list (entry timestamp_field);
  rightEntries : list (entry timestamp_field);
  conversationHistory : list message;
  currentSessionId : option string;
  lastUserInput : string;
  improvedSentence : string;
  isGeneratingImprovement : bool;
  showNotebooksList : bool;
  isLoadingSession : bool;
  alerts : list string;
  SYNONYMS_CACHE : gmap string jsval
}.

Definition setIsLoadingSession (b : bool) (st : app_state) : app_state :=
  {| leftEntries := leftEntries st; rightEntries := rightEntries st;
     conversationHistory := conversationHistory st;
     currentSessionId := currentSessionId st;
     lastUserInput := lastUserInput st;
     improvedSentence := improvedSentence st;
     isGeneratingImprovement := isGeneratingImprovement st;
     showNotebooksList := showNotebooksList st;
     isLoadingSession := b;
     alerts := alerts st;
     SYNONYMS_CACHE := SYNONYMS_CACHE st |}.

Definition alert (msg : string) (st : app_state) : app_state :=
  {| leftEntries := leftEntries st; rightEntries := rightEntries st;
     conversationHistory := conversationHistory st;
     currentSessionId := currentSessionId st;
     lastUserInput := lastUserInput st;
     improvedSentence := improvedSentence st;
     isGeneratingImprovement := isGeneratingImprovement st;
     showNotebooksList := showNotebooksList st;
     isLoadingSession := isLoadingSession st;
     alerts := alerts st ++ [msg];
     SYNONYMS_CACHE := SYNONYMS_CACHE st |}.

(** [SYNONYMS_CACHE.clear()] followed by the loop
    [for (const [key, value] of Object.entries(vocabularyData)) SYNONYMS_CACHE.set(key, value)]. *)
Definition restore_cache (vocabularyData : jsobject) : gmap string jsval :=
  foldl (fun cache '(key, value) => <[key := value]> cache) ∅ vocabularyData.

Section Dates.

(** [new Date(s)] for a string [s]. *)
Variable Date_parse : string -> JsDate.

(** [d.toLocaleTimeString([], { hour: '2-digit', minute: '2-digit' })] for
    a valid date [d]. *)
Variable toLocaleTimeString : Z -> string.

(** The callback of the two [map] calls of [loadSession]; [now] is what
    its [new Date()] reads. *)
Definition restore_entry (now : Z) (e : entry (option string))
  : entry timestamp_field :=
  let timestamp :=
    match timestamp e with
    | Some raw =>
        if truthy_string raw then
          match Date_parse raw with
          | ValidDate ms => ValidDate ms
          | InvalidDate => ValidDate now
          end
        else ValidDate now
    | None => ValidDate now
    end in
  {| id := id e; text := text e; timestamp := DateObject timestamp;
     colorIndex := colorIndex e |}.

(** A [map] of [restore_entry]: [clock n] is what the [n]-th [new Date()]
    of the load reads, and the first entry takes reading [from]. *)
Definition restore_entries (clock : nat -> Z) (from : nat)
    (entries : list (entry (option string))) : list (entry timestamp_field) :=
  imap (fun i e => restore_entry (clock (from + i)%nat) e) entries.

(** [loadSession(sessionId)], from what [DatabaseService.getNotebook]
    completes with.  The save of the current session that comes first
    writes to the store only and catches its own errors. *)
Definition loadSession (sessionId : string)
    (getNotebook : completion (option sessionData)) (clock : nat -> Z)
    (st : app_state) : app_state :=
  let st := setIsLoadingSession true st in
  let st :=
    match getNotebook with
    | Normal (Some sessionData) =>
        let left := default [] (stored_leftEntries sessionData) in
        let right := default [] (stored_rightEntries sessionData) in
        let leftEntriesWithDates := restore_entries clock 0 left in
        let rightEntriesWithDates := restore_entries clock (length left) right in
        {| leftEntries := leftEntriesWithDates;
           rightEntries := rightEntriesWithDates;
           conversationHistory := default [] (stored_conversationHistory sessionData);
           currentSessionId := Some sessionId;
           lastUserInput := EmptyString;
           improvedSentence := EmptyString;
           isGeneratingImprovement := false;
           showNotebooksList := false;
           isLoadingSession := isLoadingSession st;
           alerts := alerts st;
           SYNONYMS_CACHE :=
             match vocabularyData sessionData with
             | Some vocabularyData => restore_cache vocabularyData
             | None => SYNONYMS_CACHE st
             end |}
    | Normal None => alert "Failed to load session data" st
    | Throw _ => alert "Failed to load session. Please try again." st
    end in
  setIsLoadingSession false st.

(** The timestamp cell of an entry in [NotebookComponent]; [now] is what
    its [new Date()] reads. *)
Definition entry_timestamp_cell (now : Z) (e : entry timestamp_field) : string :=
  let timestamp :=
    match timestamp e with
    | DateObject d => d
    | NotDate (Some raw) => Date_parse raw
    | NotDate None => InvalidDate
    end in
  match timestamp with
  | InvalidDate => toLocaleTimeString now
  | ValidDate ms => toLocaleTimeString ms
  end.

End Dates.

(** A stored timestamp that is missing or malformed: no field, the empty
    string, or a string that gives an invalid date. *)
Definition malformed_timestamp (Date_parse : string -> JsDate)
    (e : entry (option string)) : Prop :=
  timestamp e = None
  \/ timestamp e = Some EmptyString
  \/ exists raw, timestamp e = Some raw /\ Date_parse raw = InvalidDate.

End Session.

(** ** The normalization of the specification's glossary *)

Module Glossary.
Import JsString.

(** The wording of the glossary, in its order: lowercase, stripped
    punctuation, trimmed white space. *)
Definition normalization (s : string) : string :=
  trim (strip_punct (toLowerCase s)).

End Glossary.

(** ** Sample inputs *)

Module Samples.
Import JsString JsValue.

(** The double quote, for the texts that contain one. *)
Definition dq : string := String (ascii_of_nat 34) EmptyString.

(** An answer with text around the object:
    [Some preamble {"very":["extremely","incredibly","remarkably"]} trailing]. *)
Definition answer_with_preamble : string :=
  "Some preamble {" +:+ dq +:+ "very" +:+ dq +:+ ":["
    +:+ dq +:+ "extremely" +:+ dq +:+ ","
    +:+ dq +:+ "incredibly" +:+ dq +:+ ","
    +:+ dq +:+ "remarkably" +:+ dq +:+ "]} trailing".

Definition very_synonyms : jsval :=
  JArr [JStr "extremely"; JStr "incredibly"; JStr "remarkably"].

Definition sad_synonyms : jsval :=
  JArr [JStr "unhappy"; JStr "gloomy"; JStr "downhearted"].

(** A word at the left edge of a phone-sized viewport, 320 wide, with a
    synonym text of 40 code units. *)
Definition narrow_word : Hover.DOMRect :=
  {| Hover.rect_left := 12; Hover.rect_top := 200; Hover.rect_width := 30 |}.

Definition narrow_entry : Hover.DOMRect :=
  {| Hover.rect_left := 8; Hover.rect_top := 180; Hover.rect_width := 300 |}.

(** A word at the left edge of a viewport 1024 wide. *)
Definition wide_entry : Hover.DOMRect :=
  {| Hover.rect_left := 8; Hover.rect_top := 180; Hover.rect_width := 480 |}.

(** A user entry, mounted and idle, with the annotation flag on. *)
Definition happy_entry : App.component :=
  {| App.text := "I am very happy";
     App.enableSynonyms := true;
     App.isLoadingRef := false;
     App.sentenceSynonyms := empty_object |}.

(** Two mounted entries with the same text, an empty cache, no call yet. *)
Definition two_entries : App.world :=
  {| App.SYNONYMS_CACHE := ∅;
     App.provider_calls := [];
     App.components := <[2 := happy_entry]> (<[1 := happy_entry]> ∅) |}.

(** Nothing mounted, nothing cached, no call yet. *)
Definition fresh_world : App.world :=
  {| App.SYNONYMS_CACHE := ∅; App.provider_calls := []; App.components := ∅ |}.

(** A stored session with one entry whose timestamp does not parse, one
    entry without a timestamp, and the vocabulary [{"sad": [...]}]. *)
Definition stored_session : Session.sessionData :=
  {| Session.stored_leftEntries :=
       Some [ {| Session.id := 1; Session.text := "I feel sad";
                 Session.timestamp := Some "yesterday-ish";
                 Session.colorIndex := Some 0%Z |} ];
     Session.stored_rightEntries :=
       Some [ {| Session.id := 2; Session.text := "Tell me more";
                 Session.timestamp := None;
                 Session.colorIndex := Some 0%Z |} ];
     Session.stored_conversationHistory := None;
     Session.vocabularyData := Some [("sad", sad_synonyms)] |}.

(** The state of the application before the load, with a cache entry of
    the session that is being left. *)
Definition state_before_load : Session.app_state :=
  {| Session.leftEntries := [];
     Session.rightEntries := [];
     Session.conversationHistory := [];
     Session.currentSessionId := Some "previous";
     Session.lastUserInput := "It was very good";
     Session.improvedSentence := EmptyString;
     Session.isGeneratingImprovement := false;
     Session.showNotebooksList := true;
     Session.isLoadingSession := false;
     Session.alerts := [];
     Session.SYNONYMS_CACHE :=
       {[ "it was very good" := JObj [("very", very_synonyms)] ]} |}.

(** A date parser that knows one ISO string, for the examples. *)
Definition sample_Date_parse (s : string) : Session.JsDate :=
  if String.eqb s "2025-03-01T10:00:00.000Z"
  then Session.ValidDate 1740823200000
  else Session.InvalidDate.

Definition sample_toLocaleTimeString (ms : Z) : string :=
  if (ms =? 1740823200000)%Z then "10:00 AM" else "12:34 PM".

(** A clock that reads the same instant at each call. *)
Definition sample_clock (n : nat) : Z := 1750000000000.

(** A word 60 wide at 100 from the left of a viewport 190 wide. *)
Definition long_word : Hover.DOMRect :=
  {| Hover.rect_left := 100; Hover.rect_top := 200; Hover.rect_width := 60 |}.

End Samples.

(** ** The lines of an entry ([SynonymText], [App.js]) *)

Module Lines.
Import JsString JsValue.

(** [s.split(sep)] for a separator of one character: the pieces between
    the separators, the empty text giving one empty piece. *)
Fixpoint split_on_scan (sep : ascii) (cur s : string) : list string :=
  match s with
  | EmptyString => [cur]
  | String c s' =>
      if (c =? sep)%char then cur :: split_on_scan sep EmptyString s'
      else split_on_scan sep (cur +:+ String c EmptyString) s'
  end.

Definition split_on (sep : ascii) (s : string) : list string :=
  split_on_scan sep EmptyString s.

(** [parts.join(sep)] *)
Fixpoint join_with (sep : string) (parts : list string) : string :=
  match parts with
  | [] => EmptyString
  | [p] => p
  | p :: rest => p +:+ sep +:+ join_with sep rest
  end.

(** The number of occurrences of a character. *)
Fixpoint count_char (sep : ascii) (s : string) : nat :=
  match s with
  | EmptyString => 0
  | String c s' => (if (c =? sep)%char then 1 else 0) + count_char sep s'
  end.

(** The texts without a given character. *)
Definition free_of (sep : ascii) (s : string) : bool :=
  all_chars (fun c => negb (c =? sep)%char) s.

(** The line feed, the separator of the lines of an entry. *)
Definition LF : ascii := ascii_of_nat 10.

(** The body of [SynonymText]: one [div] for each line of the text, with
    the spans of [renderTextWithSynonyms] on the line. *)
Definition render_lines (enableSynonyms : bool) (sentenceSynonyms : jsobject)
    (text : string) : list (list SynonymText.sentence_span) :=
  SynonymText.renderTextWithSynonyms enableSynonyms sentenceSynonyms
    <$> split_on LF text.

(** The text of a rendered line. *)
Definition line_text (spans : list SynonymText.sentence_span) : string :=
  join (SynonymText.rendered_tokens spans).

End Lines.

(** ** The other helpers of the provider module ([Backend/custom.js]) *)

Module Helpers.
Import JsString JsValue.

(** What an async helper settles to: a value, or an [Error] with its
    message. *)
Inductive settled (A : Type) : Type :=
  | Fulfilled (a : A)
  | Rejected (message : string).
Arguments Fulfilled {A} a.
Arguments Rejected {A} message.

(** [text.trim()] on the answer of the service, a string or [undefined]:
    the method call on [undefined] throws. *)
Definition trimmed_answer (generateText : completion (option string))
  : option string :=
  match generateText with
  | Normal (Some text) => Some (trim text)
  | Normal None | Throw _ => None
  end.

(** [enhanceVocabulary]: the trimmed answer, or the error thrown in its
    [catch]. *)
Definition enhanceVocabulary (generateText : completion (option string))
  : settled string :=
  match trimmed_answer generateText with
  | Some enhanced => Fulfilled enhanced
  | None => Rejected "Failed to enhance vocabulary. Please try again."
  end.

(** [getVocabularySuggestions]: the trimmed answer split on commas, each
    piece trimmed; the empty array when anything throws. *)
Definition getVocabularySuggestions (generateText : completion (option string))
  : list string :=
  match trimmed_answer generateText with
  | Some suggestions => trim <$> Lines.split_on "," suggestions
  | None => []
  end.

(** The text of a message: its [message] property, as [chatWithChild]
    writes it. *)
Definition user_message (text : string) : Session.message :=
  {| Session.role := "user"; Session.content := text |}.

Definition assistant_message (text : string) : Session.message :=
  {| Session.role := "assistant"; Session.content := text |}.

(** The line of a message in the prompt of [chatWithChild]. *)
Definition context_line (msg : Session.message) : string :=
  (if String.eqb (Session.role msg) "user" then "Child" else "Assistant")
    +:+ ": " +:+ Session.content msg.

(** The conversation as the prompt shows it, one line for each message. *)
Definition conversationContext (history : list Session.message) : string :=
  Lines.join_with (String Lines.LF EmptyString) (context_line <$> history).

Record chat_result : Type := {
  response : string;
  updatedHistory : list Session.message
}.

(** [chatWithChild(conversationHistory, childMessage)], from the answer of
    the service to the prompt built on [conversationContext] of the
    history with the child's message added. *)
Definition chatWithChild (conversationHistory : list Session.message)
    (childMessage : string) (generateText : completion (option string))
  : settled chat_result :=
  let updatedHistory := conversationHistory ++ [user_message childMessage] in
  match trimmed_answer generateText with
  | Some aiResponse =>
      Fulfilled {| response := aiResponse;
                   updatedHistory := updatedHistory ++ [assistant_message aiResponse] |}
  | None => Rejected "Sorry, I had trouble understanding. Can you try asking again?"
  end.

(** The history of [App] over a run of submitted messages, each with the
    answer of the service: [handleSubmit] stores the updated history of a
    chat that succeeds and keeps the history it has when the chat
    throws. *)
Fixpoint conversation (history : list Session.message)
    (turns : list (string * completion (option string)))
  : list Session.message :=
  match turns with
  | [] => history
  | (childMessage, generateText) :: rest =>
      match chatWithChild history childMessage generateText with
      | Fulfilled aiResult => conversation (updatedHistory aiResult) rest
      | Rejected _ => conversation history rest
      end
  end.

(** The turns whose chat succeeds, each with the trimmed answer. *)
Definition answered_turns (turns : list (string * completion (option string)))
  : list (string * string) :=
  omap (fun '(childMessage, generateText) =>
          (fun a => (childMessage, a)) <$> trimmed_answer generateText) turns.

End Helpers.

(** ** The sentence corrector ([App.js]) *)

Module Improvement.
Import JsString JsValue.

(** [getImprovedSentence(originalSentence)]: the trimmed answer when there
    is one and it is not empty, otherwise the original sentence. *)
Definition getImprovedSentence (originalSentence : string)
    (generateText : completion (option string)) : string :=
  match generateText with
  | Normal (Some improvedSentence) =>
      if truthy_string (trim improvedSentence) then trim improvedSentence
      else originalSentence
  | Normal None | Throw _ => originalSentence
  end.

(** The elements at the even places of a list: the pieces of a split
    whose separators were kept. *)
Fixpoint pieces (parts : list string) : list string :=
  match parts with
  | [] => []
  | [p] => [p]
  | p :: _ :: rest => p :: pieces rest
  end.

(** The elements at the odd places: the separators. *)
Fixpoint separators (parts : list string) : list string :=
  match parts with
  | [] | [_] => []
  | _ :: sep :: rest => sep :: separators rest
  end.

(** [s.split(/\s+/)] *)
Definition split_ws (s : string) : list string :=
  pieces (split_capture is_space s).

(** [words.includes(w)] *)
Definition includes (words : list string) (w : string) : bool :=
  existsb (String.eqb w) words.

(** A word of the improved sentence: in bold when new or changed. *)
Inductive diff_word : Type :=
  | Kept (word : string)
  | NewOrChanged (word : string).

(** What [highlightDifferences] returns: one span around the improved
    sentence, or one span for each of its words, every word but the last
    followed by a space. *)
Inductive highlighted : Type :=
  | Whole (improved : string)
  | Words (words : list diff_word).

Definition highlightDifferences (original improved : string) : highlighted :=
  if negb (truthy_string improved) || String.eqb improved original
  then Whole improved
  else
    let originalWords := split_ws (toLowerCase original) in
    let improvedWords := split_ws improved in
    Words ((fun word =>
              let cleanWord := strip_punct (toLowerCase word) in
              let isNewOrChanged := negb (includes originalWords cleanWord) in
              if isNewOrChanged then NewOrChanged word else Kept word)
             <$> improvedWords).

Definition diff_word_text (w : diff_word) : string :=
  match w with
  | Kept word | NewOrChanged word => word
  end.

(** The text a reader sees. *)
Definition highlighted_text (h : highlighted) : string :=
  match h with
  | Whole improved => improved
  | Words words => Lines.join_with " " (diff_word_text <$> words)
  end.

(** The words shown in bold. *)
Definition bold_words (h : highlighted) : list string :=
  match h with
  | Whole _ => []
  | Words words =>
      omap (fun w => match w with
                     | NewOrChanged word => Some word
                     | Kept _ => None
                     end) words
  end.

End Improvement.

(** ** Saving a session ([saveCurrentSessionWithRetry], [App.js]) *)

Module Saving.
Import JsString JsValue.

(** [vocabularyData[key] = value] on the plain object that is being
    filled: the name [__proto__] reaches the setter of [Object.prototype]
    and makes no own property; any other name becomes an own property. *)
Definition assign (obj : jsobject) (key : string) (value : jsval) : jsobject :=
  if String.eqb key "__proto__" then obj else obj_set key value obj.

(** The loop over [SYNONYMS_CACHE.entries()] that fills [vocabularyData].
    A finite map keeps no order of insertion; the entries are taken in the
    order of the map's listing. *)
Definition export_cache (cache : gmap string jsval) : jsobject :=
  foldl (fun obj '(key, value) => assign obj key value) [] (map_to_list cache).

(** What is handed to [DatabaseService.updateNotebook]. *)
Record notebook_update : Type := {
  title : string;
  update_leftEntries : list (Session.entry (option string));
  update_rightEntries : list (Session.entry (option string));
  update_conversationHistory : list Session.message;
  update_vocabularyData : jsobject;
  lastUpdated : string
}.

(** What a call of the save does: it returns before anything is sent
    (no session, or no entry), it fails in its [try] (logged, nothing
    confirmed), or the store took the update. *)
Inductive save_outcome : Type :=
  | NotSaved
  | SaveFailed
  | Saved (sessionId : string) (data : notebook_update).

(** The fields [loadSession] reads from a session document once the
    update is written to it. *)
Definition stored_document (data : notebook_update) : Session.sessionData :=
  {| Session.stored_leftEntries := Some (update_leftEntries data);
     Session.stored_rightEntries := Some (update_rightEntries data);
     Session.stored_conversationHistory := Some (update_conversationHistory data);
     Session.vocabularyData := Some (update_vocabularyData data) |}.

Section Dates.

(** [d.toISOString()] for a valid date [d]. *)
Variable toISOString : Z -> string.

(** The callback of the two [map] calls of the save:
    [toISOString] of an invalid date throws a RangeError ([None]); a
    timestamp that is no [Date] is passed on as it is. *)
Definition serialize_entry (e : Session.entry Session.timestamp_field)
  : option (Session.entry (option string)) :=
  match Session.timestamp e with
  | Session.DateObject (Session.ValidDate ms) =>
      Some {| Session.id := Session.id e; Session.text := Session.text e;
              Session.timestamp := Some (toISOString ms);
              Session.colorIndex := Session.colorIndex e |}
  | Session.DateObject Session.InvalidDate => None
  | Session.NotDate raw =>
      Some {| Session.id := Session.id e; Session.text := Session.text e;
              Session.timestamp := raw;
              Session.colorIndex := Session.colorIndex e |}
  end.

(** [saveCurrentSessionWithRetry], given the title that [generateTitle]
    gave, the time of the save as an ISO string, and what
    [DatabaseService.updateNotebook] completes with. *)
Definition saveCurrentSessionWithRetry (title lastUpdated : string)
    (updateNotebook : completion unit) (st : Session.app_state) : save_outcome :=
  match Session.currentSessionId st with
  | None => NotSaved
  | Some currentSessionId =>
      if negb (truthy_string currentSessionId) then NotSaved
      else if (length (Session.leftEntries st) =? 0)
              && (length (Session.rightEntries st) =? 0) then NotSaved
      else
        let vocabularyData := export_cache (Session.SYNONYMS_CACHE st) in
        match mapM serialize_entry (Session.leftEntries st),
              mapM serialize_entry (Session.rightEntries st) with
        | Some leftEntries, Some rightEntries =>
            let sessionData :=
              {| title := title;
                 update_leftEntries := leftEntries;
                 update_rightEntries := rightEntries;
                 update_conversationHistory := Session.conversationHistory st;
                 update_vocabularyData := vocabularyData;
                 lastUpdated := lastUpdated |} in
            match updateNotebook with
            | Normal _ => Saved currentSessionId sessionData
            | Throw _ => SaveFailed
            end
        | _, _ => SaveFailed
        end
  end.

(** An entry in memory whose timestamp is a valid date that the store's
    ISO string gives back when parsed. *)
Definition roundtrip_timestamp (Date_parse : string -> Session.JsDate)
    (e : Session.entry Session.timestamp_field) : Prop :=
  exists ms,
    Session.timestamp e = Session.DateObject (Session.ValidDate ms)
    /\ Date_parse (toISOString ms) = Session.ValidDate ms
    /\ truthy_string (toISOString ms) = true.

End Dates.

End Saving.

Module MoreSamples.
Import JsString JsValue.

Definition sample_toISOString (ms : Z) : string :=
  if (ms =? 1740823200000)%Z then "2025-03-01T10:00:00.000Z" else "1970-01-01T00:00:00.000Z".

(** A session in progress: one entry on each side, a short conversation
    and one cached sentence. *)
Definition state_in_session : Session.app_state :=
  {| Session.leftEntries :=
       [ {| Session.id := 11; Session.text := "It was very good";
            Session.timestamp := Session.DateObject (Session.ValidDate 1740823200000);
            Session.colorIndex := Some 0%Z |} ];
     Session.rightEntries :=
       [ {| Session.id := 12; Session.text := "What made it good?";
            Session.timestamp := Session.DateObject (Session.ValidDate 1740823200000);
            Session.colorIndex := Some 0%Z |} ];
     Session.conversationHistory :=
       [ Helpers.user_message "It was very good";
         Helpers.assistant_message "What made it good?" ];
     Session.currentSessionId := Some "session-1";
     Session.lastUserInput := "It was very good";
     Session.improvedSentence := EmptyString;
     Session.isGeneratingImprovement := false;
     Session.showNotebooksList := false;
     Session.isLoadingSession := false;
     Session.alerts := [];
     Session.SYNONYMS_CACHE :=
       {[ "it was very good" := JObj [("very", Samples.very_synonyms)] ]} |}.

End MoreSamples.

(** ** Creating a session ([createNewSession], [App.js]) *)

Module Creation.
Import JsString JsValue.

(** The ref [sessionCreatedRef], the state [currentSessionId], and the
    number of calls of [DatabaseService.saveNotebookSession] made so
    far. *)
Record creation : Type := {
  sessionCreatedRef : bool;
  currentSessionId : option string;
  create_requests : nat
}.

(** What the call has reached when it first gives control back: its
    result (a session id or [null]), or the [await] of the store. *)
Inductive creation_state : Type :=
  | Returned (sessionId : option string)
  | AwaitingStore.

Definition truthy_id (id : option string) : bool :=
  match id with
  | Some s => truthy_string s
  | None => false
  end.

(** [createNewSession()] up to its [await]; [seen] is the value of
    [currentSessionId] in the render the handler comes from. *)
Definition createNewSession_start (seen : option string) (st : creation)
  : creation * creation_state :=
  if sessionCreatedRef st || truthy_id seen then (st, Returned seen)
  else
    ({| sessionCreatedRef := true;
        currentSessionId := currentSessionId st;
        create_requests := S (create_requests st) |},
     AwaitingStore).

(** [createNewSession()] after its [await], with what
    [saveNotebookSession] completed with. *)
Definition createNewSession_finish (saveNotebookSession : completion string)
    (st : creation) : creation * option string :=
  match saveNotebookSession with
  | Normal sessionId =>
      ({| sessionCreatedRef := sessionCreatedRef st;
          currentSessionId := Some sessionId;
          create_requests := create_requests st |},
       Some sessionId)
  | Throw _ =>
      ({| sessionCreatedRef := false;
          currentSessionId := currentSessionId st;
          create_requests := create_requests st |},
       None)
  end.

End Creation.

(** * Properties *)

Import JsString JsValue Json.

(** ** Strings and splitting *)

Lemma append_empty_l (s : string) : EmptyString +:+ s = s.
Proof. reflexivity. Qed.

Lemma append_cons (c : ascii) (s t : string) :
  String c s +:+ t = String c (s +:+ t).
Proof. reflexivity. Qed.

Lemma append_empty_r (s : string) : s +:+ EmptyString = s.
Proof.
  induction s as [|c s IH]; [reflexivity |].
  by rewrite append_cons, IH.
Qed.

Lemma append_assoc (a b c : string) : (a +:+ b) +:+ c = a +:+ (b +:+ c).
Proof.
  induction a as [|x a IH]; [reflexivity |].
  by rewrite !append_cons, IH.
Qed.

Lemma join_app (l1 l2 : list string) : join (l1 ++ l2) = join l1 +:+ join l2.
Proof.
  induction l1 as [|s l1 IH]; simpl; [reflexivity |].
  by rewrite IH, append_assoc.
Qed.

Lemma join_split_scan (C : ascii -> bool) (s : string) :
  forall (in_run : bool) (cur : string),
    join (split_scan C in_run cur s) = cur +:+ s.
Proof.
  induction s as [|c s IH]; intros in_run cur; simpl.
  - destruct in_run; simpl; by rewrite ?append_empty_l.
  - destruct (C c), in_run; simpl; rewrite IH;
      by rewrite ?append_assoc, ?append_cons, ?append_empty_l.
Qed.

Lemma join_split_capture (C : ascii -> bool) (s : string) :
  join (split_capture C s) = s.
Proof. unfold split_capture. by rewrite join_split_scan. Qed.

(** Joining the joined groups: if every group built from an element joins
    back to that element, so does the whole. *)
Lemma join_concat_groups (f : string -> list string) (l : list string) :
  (forall s, join (f s) = s) -> join (concat (f <$> l)) = join l.
Proof.
  intros Hf. induction l as [|s l IH]; [reflexivity |].
  rewrite fmap_cons. change (concat (f s :: (f <$> l))) with (f s ++ concat (f <$> l)).
  rewrite join_app, Hf, IH. reflexivity.
Qed.

(** ** Rendering *)

Lemma word_text_render_word enableSynonyms sentenceSynonyms word :
  SynonymText.word_text
    (SynonymText.render_word enableSynonyms sentenceSynonyms word) = word.
Proof. unfold SynonymText.render_word. by case_match. Qed.

Lemma sentence_tokens_render_sentence enableSynonyms sentenceSynonyms sentence :
  join (SynonymText.sentence_tokens
          (SynonymText.render_sentence enableSynonyms sentenceSynonyms sentence))
  = sentence.
Proof.
  unfold SynonymText.render_sentence. case_match; simpl.
  - apply append_empty_r.
  - rewrite <- list_fmap_compose.
    rewrite (list_fmap_ext _ id (split_capture is_space sentence)).
    + rewrite list_fmap_id. apply join_split_capture.
    + intros i w _. apply word_text_render_word.
Qed.

(** C1. Tokenizing a text as [renderTextWithSynonyms] does (split on the
    runs of full stops, exclamation and question marks with the runs kept,
    then split every other element on the runs of white space with the
    runs kept) and concatenating the tokens in order gives the text back,
    whatever the text, the flag and the synonym map. *)
Theorem tokenize_concat_roundtrip
    (enableSynonyms : bool) (sentenceSynonyms : jsobject) (T : string) :
  join (SynonymText.rendered_tokens
          (SynonymText.renderTextWithSynonyms enableSynonyms sentenceSynonyms T))
  = T.
Proof.
  unfold SynonymText.rendered_tokens, SynonymText.renderTextWithSynonyms.
  rewrite <- list_fmap_compose.
  rewrite (join_concat_groups
             (SynonymText.sentence_tokens
                ∘ SynonymText.render_sentence enableSynonyms sentenceSynonyms)).
  - apply join_split_capture.
  - intros s. apply sentence_tokens_render_sentence.
Qed.

(** ** The fuel of [JSON.parse] *)

Lemma skip_ws_length (s : string) : String.length (skip_ws s) <= String.length s.
Proof. induction s as [|c s IH]; simpl; [lia |]. destruct (is_ws c); simpl; lia. Qed.

Lemma skip_ws_cons_length (s : string) c r :
  skip_ws s = String c r -> String.length r < String.length s.
Proof. intros H. pose proof (skip_ws_length s) as Hl. rewrite H in Hl. simpl in Hl. lia. Qed.

Lemma cons_char_length c o b r :
  cons_char c o = Some (b, r) -> exists b', o = Some (b', r).
Proof. destruct o as [[b' r']|]; simpl; [|discriminate]. intros [= <- <-]. eauto. Qed.

Lemma parse_chars_length (n : nat) :
  forall s b r, String.length s <= n ->
    parse_chars s = Some (b, r) -> String.length r < String.length s.
Proof.
  induction n as [|n IH]; intros s b r Hn.
  - destruct s; [discriminate | simpl in Hn; lia].
  - destruct s as [|c s]; simpl; [discriminate |]. simpl in Hn.
    repeat case_match; try discriminate; subst; simpl in *.
    all: try (intros [= <- <-]; simpl; lia).
    all: intros [b' Hrec]%cons_char_length; apply IH in Hrec; simpl in *; lia.
Qed.

Lemma take_digits_length (s : string) :
  String.length (take_digits s).2 <= String.length s.
Proof.
  induction s as [|c s IH]; simpl; [lia |].
  destruct (is_digit c); simpl; [|lia]. destruct (take_digits s); simpl in *; lia.
Qed.

Lemma strip_prefix_length (p : string) :
  forall s r, strip_prefix p s = Some r -> String.length r <= String.length s.
Proof.
  induction p as [|a p IH]; intros s r; simpl.
  - intros [= ->]. lia.
  - destruct s as [|b s]; [discriminate |]. destruct (a =? b)%char; [|discriminate].
    intros H%IH. simpl. lia.
Qed.

Lemma parse_number_length (s : string) lexeme r :
  parse_number s = Some (lexeme, r) -> String.length r <= String.length s.
Proof.
  unfold parse_number.
  repeat (case_match; try discriminate); intros ?; simplify_eq.
  all: repeat match goal with
       | H : take_digits ?x = (_, ?y) |- _ =>
           let L := fresh in pose proof (take_digits_length x) as L; rewrite H in L; simpl in L; clear H
       | H : strip_prefix _ ?x = Some ?y |- _ => apply strip_prefix_length in H
       end; simpl in *; lia.
Qed.

Ltac length_facts :=
  repeat match goal with
    | H : skip_ws ?s = String _ _ |- _ => apply skip_ws_cons_length in H
    | H : parse_chars ?s = Some _ |- _ => apply (parse_chars_length _ _ _ _ (le_n _)) in H
    | H : parse_number ?s = Some _ |- _ => apply parse_number_length in H
    | H : strip_prefix _ ?s = Some _ |- _ => apply strip_prefix_length in H
    end.

Lemma parse_length (fuel : nat) :
  (forall s v r, parse_value fuel s = Some (v, r) -> String.length r <= String.length s)
  /\ (forall acc s v r, parse_members fuel acc s = Some (v, r) ->
        String.length r <= String.length s)
  /\ (forall acc s v r, parse_elements fuel acc s = Some (v, r) ->
        String.length r <= String.length s).
Proof.
  induction fuel as [|fuel (IHv & IHm & IHe)]; [repeat split; intros; discriminate |].
  repeat split.
  - intros s v r. simpl.
    repeat (case_match; try discriminate); intros ?; simplify_eq;
      repeat match goal with
        | H : parse_members _ _ _ = Some _ |- _ => apply IHm in H
        | H : parse_elements _ _ _ = Some _ |- _ => apply IHe in H
        end; length_facts; simpl in *; lia.
  - intros acc s v r. simpl.
    repeat (case_match; try discriminate); intros ?; simplify_eq;
      repeat match goal with
        | H : parse_value _ _ = Some _ |- _ => apply IHv in H
        | H : parse_members _ _ _ = Some _ |- _ => apply IHm in H
        end; length_facts; simpl in *; lia.
  - intros acc s v r. simpl.
    repeat (case_match; try discriminate); intros ?; simplify_eq;
      repeat match goal with
        | H : parse_value _ _ = Some _ |- _ => apply IHv in H
        | H : parse_elements _ _ _ = Some _ |- _ => apply IHe in H
        end; length_facts; simpl in *; lia.
Qed.

Ltac fuel_side :=
  repeat match goal with
    | H : parse_value _ _ = Some _ |- _ => apply (proj1 (parse_length _)) in H
    end;
  length_facts; simpl in *; lia.

Lemma fuel_agree_S (f1 f2 : nat) : fuel_agree f1 f2 -> fuel_agree (S f1) (S f2).
Proof.
  intros (IHv & IHm & IHe). repeat split.
  - intros s Hs. simpl.
    repeat first [ rewrite IHm by fuel_side | rewrite IHe by fuel_side
                 | reflexivity | case_match ].
  - intros acc s Hs. simpl.
    repeat first [ rewrite IHv by fuel_side | rewrite IHm by fuel_side
                 | reflexivity | case_match ].
  - intros acc s Hs. simpl.
    repeat first [ rewrite IHv by fuel_side | rewrite IHe by fuel_side
                 | reflexivity | case_match ].
Qed.

Lemma fuel_agree_succ (f : nat) : fuel_agree (S f) f.
Proof.
  induction f as [|f IH]; [repeat split; intros; lia | by apply fuel_agree_S].
Qed.

(** Beyond twice the length of the text, more fuel changes nothing. *)
Lemma parse_value_fuel (s : string) (fuel : nat) :
  2 * String.length s + 2 <= fuel ->
  parse_value fuel s = parse_value (2 * String.length s + 2) s.
Proof.
  intros Hle. replace fuel with ((fuel - (2 * String.length s + 2)) + (2 * String.length s + 2)) by lia.
  generalize (fuel - (2 * String.length s + 2)). intros n.
  induction n as [|n IH]; [reflexivity |].
  rewrite <- IH. simpl. apply (fuel_agree_succ _). lia.
Qed.

(** [JSON.parse] is the parser with fuel to spare: any larger amount of
    fuel gives the same completion. *)
Lemma JSON_parse_fuel (text : string) (fuel : nat) :
  2 * String.length text + 2 <= fuel ->
  JSON_parse text
  = match parse_value fuel text with
    | Some (v, rest) =>
        match skip_ws rest with
        | EmptyString => Normal v
        | String _ _ => Throw SyntaxError
        end
    | None => Throw SyntaxError
    end.
Proof. intros Hle. unfold JSON_parse. by rewrite (parse_value_fuel _ _ Hle). Qed.

(** ** The provider's parser *)

(** C2. The parser of the provider on the three sample answers: the
    object found after a preamble is returned with its single key [very]
    bound to the three synonyms; an answer without an object and the
    answer [{}] both give the empty mapping. *)
Theorem parser_sample_answers :
  CustomAIService.getSynonymsForSentence (Normal (Some Samples.answer_with_preamble))
    = Return (JObj [("very", Samples.very_synonyms)])
  /\ CustomAIService.getSynonymsForSentence (Normal (Some "no json here"))
    = Return (JObj [])
  /\ CustomAIService.getSynonymsForSentence (Normal (Some "{}"))
    = Return (JObj []).
Proof. repeat split; vm_compute; reflexivity. Qed.

(** An escape for a code unit above U+00FF is accepted, as [JSON.parse]
    accepts it: an answer whose only key holds the escape of U+2019 gives
    an object with that one key and its array. *)
Example provider_accepts_wide_escape :
  exists key,
    CustomAIService.getSynonymsForSentence
      (Normal (Some ("{" +:+ Samples.dq +:+ "don\u2019t" +:+ Samples.dq +:+ ":["
                       +:+ Samples.dq +:+ "do not" +:+ Samples.dq +:+ "]}")))
    = Return (JObj [(key, JArr [JStr "do not"])])
    /\ String.length key = 5.
Proof. eexists. vm_compute. split; reflexivity. Qed.

(** Numbers that are zero as doubles are falsy: the zeros, and what lies
    at or below half the least positive double. *)
Example number_truthiness :
  truthy (JNum "0") = false
  /\ truthy (JNum "-0.0e7") = false
  /\ truthy (JNum "1e-400") = false
  /\ truthy (JNum "2.4e-324") = false
  /\ truthy (JNum "2.5e-324") = true
  /\ truthy (JNum "0.5") = true
  /\ truthy (JNum "1e999") = true.
Proof. vm_compute. repeat split. Qed.

Lemma parse_members_object (fuel : nat) :
  forall (acc : jsobject) (s : string) (v : jsval) (rest : string),
    parse_members fuel acc s = Some (v, rest) -> is_object v.
Proof.
  induction fuel as [|fuel IH]; intros acc s v rest; simpl; [discriminate |].
  repeat case_match; try discriminate.
  - apply IH.
  - intros [= <- <-]. by eexists.
Qed.

Lemma parse_value_open_brace (fuel : nat) (r : string) (v : jsval) (rest : string) :
  parse_value fuel (String "{" r) = Some (v, rest) -> is_object v.
Proof.
  destruct fuel as [|fuel]; simpl; [discriminate |].
  repeat case_match; try discriminate.
  - intros [= <- <-]. by eexists.
  - apply parse_members_object.
Qed.

(** A text that starts with an opening brace parses to an object or not
    at all. *)
Lemma JSON_parse_open_brace (r : string) (v : jsval) :
  JSON_parse (String "{" r) = Normal v -> is_object v.
Proof.
  unfold JSON_parse.
  destruct (parse_value _ _) as [[v' rest]|] eqn:E; [|discriminate].
  case_match; [|discriminate]. intros [= <-].
  by eapply parse_value_open_brace.
Qed.

Lemma match_lazy_object_open_brace (s m : string) :
  CustomAIService.match_lazy_object s = Some m -> exists r, m = String "{" r.
Proof.
  induction s as [|c s IH]; simpl; [discriminate |].
  destruct (Ascii.eqb_spec c "{") as [->|_]; [|exact IH].
  destruct (CustomAIService.until_close s); [|exact IH].
  intros [= <-]. by eexists.
Qed.

Lemma match_flat_object_open_brace (s m : string) :
  CustomAIService.match_flat_object s = Some m -> exists r, m = String "{" r.
Proof.
  induction s as [|c s IH]; simpl; [discriminate |].
  destruct (Ascii.eqb_spec c "{") as [->|_]; [|exact IH].
  destruct (CustomAIService.flat_body s); [|exact IH].
  intros [= <-]. by eexists.
Qed.

(** The outcomes of the provider, by cases on the answer of the service
    and on the two parse attempts. *)
Lemma getSynonymsForSentence_outcomes
    (generateText : completion (option string)) :
  exists props : jsobject,
    CustomAIService.getSynonymsForSentence generateText = Return (JObj props)
    /\ (props <> [] ->
        exists response m,
          generateText = Normal (Some response)
          /\ JSON_parse m = Normal (JObj props)
          /\ (CustomAIService.match_lazy_object response = Some m
              \/ exists m0 e,
                   CustomAIService.match_lazy_object response = Some m0
                   /\ JSON_parse m0 = Throw e
                   /\ CustomAIService.match_flat_object (strip_breaks response)
                      = Some m)).
Proof.
  unfold CustomAIService.getSynonymsForSentence, CustomAIService.String_match,
    CustomAIService.String_replace_breaks.
  destruct generateText as [[response|]|e]; simpl;
    try (exists []; split; [reflexivity | congruence]).
  destruct (CustomAIService.match_lazy_object response) as [m0|] eqn:Hlazy; simpl;
    [|exists []; split; [reflexivity | congruence]].
  destruct (match_lazy_object_open_brace _ _ Hlazy) as [r0 ->].
  destruct (JSON_parse (String "{" r0)) as [parsed|e] eqn:Hparse; simpl.
  - destruct (JSON_parse_open_brace _ _ Hparse) as [props ->].
    destruct (nonempty_object (JObj props)) eqn:Hne; simpl.
    + exists props. split; [reflexivity |]. intros _.
      exists response, (String "{" r0). auto.
    + exists []. split; [reflexivity | congruence].
  - destruct (CustomAIService.match_flat_object (strip_breaks response))
      as [m|] eqn:Hflat; simpl;
      [|exists []; split; [reflexivity | congruence]].
    destruct (match_flat_object_open_brace _ _ Hflat) as [r ->].
    destruct (JSON_parse (String "{" r)) as [v|e'] eqn:Hparse'; simpl;
      [|exists []; split; [reflexivity | congruence]].
    destruct (JSON_parse_open_brace _ _ Hparse') as [props ->].
    exists props. split; [reflexivity |]. intros _.
    exists response, (String "{" r). split; [reflexivity |].
    split; [exact Hparse' |]. right. exists (String "{" r0), e. auto.
Qed.

(** C3. Whatever the generative service answers, and also when the call
    of the service fails, the provider returns and never throws; what it
    returns is a mapping, and the mapping is empty unless one of the two
    parse attempts succeeded on the matched text with exactly that
    non-empty object.  So a failed parse, a parsed value that is not an
    object and a parsed empty object all give the empty mapping. *)
Theorem getSynonymsForSentence_never_throws
    (generateText : completion (option string)) :
  exists props : jsobject,
    CustomAIService.getSynonymsForSentence generateText = Return (JObj props)
    /\ (props <> [] ->
        exists response m,
          generateText = Normal (Some response)
          /\ JSON_parse m = Normal (JObj props)
          /\ (CustomAIService.match_lazy_object response = Some m
              \/ exists m0 e,
                   CustomAIService.match_lazy_object response = Some m0
                   /\ JSON_parse m0 = Throw e
                   /\ CustomAIService.match_flat_object (strip_breaks response)
                      = Some m)).
Proof. exact (getSynonymsForSentence_outcomes generateText). Qed.

(** ** Which words react to the pointer *)

(** A word is rendered as interactive exactly when the flag is on, the
    property read of its normalized form on the synonym object is truthy,
    and the word is not blank. *)
Lemma render_word_interactive enableSynonyms (sentenceSynonyms : jsobject) word :
  SynonymText.render_word enableSynonyms sentenceSynonyms word
    = SynonymText.SynonymWord word
  <-> enableSynonyms = true
      /\ truthy (Get sentenceSynonyms (SynonymText.cleanWord word)) = true
      /\ truthy_string (trim word) = true.
Proof.
  unfold SynonymText.render_word.
  destruct enableSynonyms,
    (truthy (Get sentenceSynonyms (SynonymText.cleanWord word))),
    (truthy_string (trim word)); simpl; split;
    try discriminate; try tauto; intros (? & ? & ?); discriminate.
Qed.

(** Away from the names of [Object.prototype], on a synonym object whose
    values are truthy (arrays are), a word token is interactive exactly
    when the flag is on and its normalized form is a key of the object. *)
Lemma render_word_key_outside_prototype enableSynonyms
    (sentenceSynonyms : jsobject) word :
  (forall k v, own_property k sentenceSynonyms = Some v -> truthy v = true) ->
  truthy_string (trim word) = true ->
  existsb (String.eqb (SynonymText.cleanWord word)) Object_prototype = false ->
  SynonymText.render_word enableSynonyms sentenceSynonyms word
    = SynonymText.SynonymWord word
  <-> enableSynonyms = true
      /\ is_Some (own_property (SynonymText.cleanWord word) sentenceSynonyms).
Proof.
  intros Hvalues Hword Hproto. rewrite render_word_interactive.
  unfold Get. rewrite Hproto, Hword.
  destruct (own_property (SynonymText.cleanWord word) sentenceSynonyms)
    as [v|] eqn:Hown.
  - rewrite (Hvalues _ _ Hown). split; [intros (-> & _); eauto | intros (-> & _); auto].
  - simpl. split; [intros (_ & [=] & _) | intros (_ & [v [=]])].
Qed.

(** C4, at the entry text [constructor] with the flag on and the initial,
    empty synonym object: the word is rendered as interactive although its
    normalized form is no key of the object, because the property read
    reaches [Object.prototype.constructor]. *)
Theorem constructor_rendered_interactive :
  SynonymText.renderTextWithSynonyms true [] "constructor"
    = [SynonymText.SentenceWords [SynonymText.SynonymWord "constructor"]]
  /\ SynonymText.interactive_words
       (SynonymText.renderTextWithSynonyms true [] "constructor")
     = ["constructor"]
  /\ SynonymText.cleanWord "constructor" = "constructor"
  /\ own_property "constructor" [] = None
  /\ Get [] "constructor" = JNative "constructor".
Proof. repeat split. Qed.

(** ** The tooltip anchor *)

Section TooltipAnchor.
Local Open Scope Q_scope.

Lemma tooltipEstimatedWidth_min (n : nat) : 140 <= Hover.tooltipEstimatedWidth n.
Proof. unfold Hover.tooltipEstimatedWidth. apply Q.le_max_l. Qed.

(** When the handler sets the tooltip, the synonyms are an array and the
    position is [tooltipPosition] at the length of their joined text. *)
Lemma handleWordHover_position (Array_join_length : list jsval -> nat)
    enableSynonyms (sentenceSynonyms : jsobject) rect parentRect viewportWidth
    word hovered synonyms p :
  Hover.handleWordHover Array_join_length enableSynonyms sentenceSynonyms
    rect parentRect viewportWidth word = Hover.Hovered hovered synonyms p ->
  exists elts,
    synonyms = JArr elts
    /\ Get sentenceSynonyms (Hover.cleanWord word) = JArr elts
    /\ p = Hover.tooltipPosition rect parentRect viewportWidth
             (Array_join_length elts).
Proof.
  unfold Hover.handleWordHover, Hover.join_length.
  destruct enableSynonyms; simpl; [|discriminate].
  destruct (truthy _); [|discriminate].
  destruct (Get sentenceSynonyms (Hover.cleanWord word)); try discriminate.
  intros [= <- <- <-]. eauto.
Qed.


(** Neither test of the handler fires for a word 60 wide at 100 in a
    viewport 190 wide (they place the footprint around the word's left
    edge), and the footprint, centred on the word's middle, ends at 200. *)
Lemma tooltip_unclamped_overshoot :
  let p := Hover.tooltipPosition Samples.long_word Samples.narrow_entry 190 0 in
  Hover.x p == 100 + 60 / 2 - 8
  /\ Hover.footprint_left Samples.narrow_entry p 0 == 60
  /\ Hover.footprint_right Samples.narrow_entry p 0 == 200
  /\ 190 - 10 < Hover.footprint_right Samples.narrow_entry p 0.
Proof. vm_compute. repeat split. Qed.



End TooltipAnchor.

(** ** The in-flight guard *)

(** While a component's ref is set, its [loadSentenceSynonyms] and its
    effect return at once and leave everything as it is. *)
Lemma loadSentenceSynonyms_start_guarded (id : nat) (w : App.world) (c : App.component) :
  App.components w !! id = Some c ->
  App.isLoadingRef c = true ->
  App.loadSentenceSynonyms_start id w = (w, None)
  /\ App.useEffect_synonyms id w = (w, None).
Proof.
  intros Hc Href. unfold App.useEffect_synonyms, App.loadSentenceSynonyms_start.
  rewrite Hc, Href. rewrite orb_true_r, !andb_false_r. done.
Qed.

(** C6 as stated fails: two entries with the same text, mounted one after
    the other while nothing is cached, each send a request, and so do two
    direct calls of the cached lookup; the second call of either pair
    starts before the first request is answered. *)
Lemma duplicate_text_two_requests :
  let t := App.text Samples.happy_entry in
  let first := App.useEffect_synonyms 1 Samples.two_entries in
  let second := App.useEffect_synonyms 2 first.1 in
  let direct1 := App.getSynonymsForSentence_start t Samples.two_entries in
  let direct2 := App.getSynonymsForSentence_start t direct1.1 in
  first.2 = Some App.AwaitingProvider
  /\ second.2 = Some App.AwaitingProvider
  /\ App.provider_calls second.1 = [t; t]
  /\ direct1.2 = App.AwaitingProvider
  /\ direct2.2 = App.AwaitingProvider
  /\ App.provider_calls direct2.1 = [t; t].
Proof. vm_compute. repeat split. Qed.

(** C6, amended.  Two calls of [loadSentenceSynonyms] on one mounted
    component, the second (made directly or by the effect) while the
    request of the first is awaited: the first sends one request and sets
    the component's ref, the second returns at once, so exactly one
    request is sent. *)
Theorem same_component_one_request (id : nat) (w : App.world) (c : App.component) :
  App.components w !! id = Some c ->
  (App.loadSentenceSynonyms_start id w).2 = Some App.AwaitingProvider ->
  let w1 := (App.loadSentenceSynonyms_start id w).1 in
  App.provider_calls w1 = App.provider_calls w ++ [App.text c]
  /\ App.loadSentenceSynonyms_start id w1 = (w1, None)
  /\ App.useEffect_synonyms id w1 = (w1, None)
  /\ App.provider_calls (App.loadSentenceSynonyms_start id w1).1
     = App.provider_calls w ++ [App.text c].
Proof.
  intros Hc. unfold App.loadSentenceSynonyms_start at 1 2. rewrite Hc.
  destruct (negb (truthy_string (trim (App.text c))) || App.isLoadingRef c);
    [discriminate |].
  unfold App.getSynonymsForSentence_start. simpl.
  destruct (App.SYNONYMS_CACHE w !! App.cacheKey (App.text c));
    [discriminate |].
  simpl. intros _.
  set (w1 := App.call_provider _ _).
  assert (Hc1 : App.components w1 !! id = Some (App.set_isLoadingRef true c)).
  { subst w1. simpl. apply lookup_insert_eq. }
  destruct (loadSentenceSynonyms_start_guarded id w1 _ Hc1 eq_refl) as [H1 H2].
  rewrite H1, H2. repeat split.
Qed.

Lemma same_component_one_request_witness :
  let w1 := (App.loadSentenceSynonyms_start 1 Samples.two_entries).1 in
  App.provider_calls w1
    = App.provider_calls Samples.two_entries ++ [App.text Samples.happy_entry]
  /\ App.loadSentenceSynonyms_start 1 w1 = (w1, None)
  /\ App.useEffect_synonyms 1 w1 = (w1, None)
  /\ App.provider_calls (App.loadSentenceSynonyms_start 1 w1).1
     = App.provider_calls Samples.two_entries ++ [App.text Samples.happy_entry].
Proof.
  apply (same_component_one_request 1 Samples.two_entries Samples.happy_entry).
  - vm_compute. reflexivity.
  - vm_compute. reflexivity.
Defined.

(** ** What the cache holds *)

Lemma nonempty_object_mapping (props : jsobject) :
  nonempty_object (JObj props) = true -> App.nonempty_mapping (JObj props).
Proof.
  unfold nonempty_object. simpl. intros H. exists props. split; [reflexivity |].
  intros ->. discriminate.
Qed.

(** A lookup keeps the cache within the non-empty mappings. *)
Lemma getSynonymsForSentence_cache_nonempty sentence generateText (w : App.world) :
  App.cache_nonempty (App.SYNONYMS_CACHE w) ->
  App.cache_nonempty
    (App.SYNONYMS_CACHE (App.getSynonymsForSentence sentence generateText w).1).
Proof.
  intros Hinv. unfold App.getSynonymsForSentence, App.getSynonymsForSentence_start.
  destruct (App.SYNONYMS_CACHE w !! App.cacheKey sentence); [exact Hinv |].
  destruct (getSynonymsForSentence_outcomes generateText) as (props & -> & _).
  simpl. destruct (nonempty_object (JObj props)) eqn:Hne; simpl; [|exact Hinv].
  intros key v. rewrite lookup_insert. case_decide.
  - intros [= <-]. by apply nonempty_object_mapping.
  - apply Hinv.
Qed.

(** A lookup that misses the cache and gets no suggestions sends one
    request and leaves the cache as it was. *)
Lemma getSynonymsForSentence_no_suggestions sentence generateText (w : App.world) :
  App.SYNONYMS_CACHE w !! App.cacheKey sentence = None ->
  App.no_suggestions generateText ->
  App.getSynonymsForSentence sentence generateText w
  = (App.call_provider sentence w, empty_object).
Proof.
  intros Hmiss Hempty.
  unfold App.getSynonymsForSentence, App.getSynonymsForSentence_start.
  rewrite Hmiss. rewrite Hempty. reflexivity.
Qed.

Lemma lookups_no_suggestions sentence answers :
  forall w : App.world,
    App.SYNONYMS_CACHE w !! App.cacheKey sentence = None ->
    Forall App.no_suggestions answers ->
    App.SYNONYMS_CACHE (App.lookups sentence answers w) = App.SYNONYMS_CACHE w
    /\ App.provider_calls (App.lookups sentence answers w)
       = App.provider_calls w ++ replicate (length answers) sentence.
Proof.
  induction answers as [|a answers IH]; intros w Hmiss Hall; simpl.
  - by rewrite app_nil_r.
  - apply Forall_cons in Hall as [Ha Hall].
    rewrite (getSynonymsForSentence_no_suggestions _ _ _ Hmiss Ha). simpl.
    destruct (IH (App.call_provider sentence w) Hmiss Hall) as [-> ->].
    simpl. by rewrite <- app_assoc.
Qed.

(** C10. Starting from a cache of non-empty mappings, a lookup leaves a
    cache of non-empty mappings; and when the lookup yields no suggestions
    (the empty mapping), nothing was cached for the sentence: the cache is
    as before, the sentence's key is absent, and each of any number of
    further lookups of that sentence that again get no suggestions misses
    the cache and sends a request of its own. *)
Theorem empty_results_never_cached sentence generateText (w : App.world) :
  App.cache_nonempty (App.SYNONYMS_CACHE w) ->
  let w1 := (App.getSynonymsForSentence sentence generateText w).1 in
  let result := (App.getSynonymsForSentence sentence generateText w).2 in
  App.cache_nonempty (App.SYNONYMS_CACHE w1)
  /\ (result = empty_object ->
      App.SYNONYMS_CACHE w1 = App.SYNONYMS_CACHE w
      /\ App.SYNONYMS_CACHE w1 !! App.cacheKey sentence = None
      /\ App.provider_calls w1 = App.provider_calls w ++ [sentence]
      /\ forall answers,
           Forall App.no_suggestions answers ->
           App.SYNONYMS_CACHE (App.lookups sentence answers w1)
             = App.SYNONYMS_CACHE w
           /\ App.provider_calls (App.lookups sentence answers w1)
              = App.provider_calls w1 ++ replicate (length answers) sentence).
Proof.
  intros Hinv w1 result.
  split; [by apply getSynonymsForSentence_cache_nonempty |].
  subst w1 result.
  unfold App.getSynonymsForSentence, App.getSynonymsForSentence_start.
  destruct (App.SYNONYMS_CACHE w !! App.cacheKey sentence) as [cached|] eqn:Hmiss.
  - simpl. intros ->. destruct (Hinv _ _ Hmiss) as (props & [= <-] & Hne). done.
  - destruct (getSynonymsForSentence_outcomes generateText) as (props & -> & _).
    simpl. destruct (nonempty_object (JObj props)) eqn:Hne; simpl.
    + intros [= ->]. discriminate.
    + intros _. split; [reflexivity |]. split; [exact Hmiss |].
      split; [reflexivity |].
      intros answers Hall.
      destruct (lookups_no_suggestions sentence answers
                  (App.call_provider sentence w) Hmiss Hall) as [-> ->].
      done.
Qed.

Lemma empty_results_never_cached_witness :
  let w1 := (App.getSynonymsForSentence "It is ok." (Normal (Some "no json here"))
               Samples.fresh_world).1 in
  let result := (App.getSynonymsForSentence "It is ok." (Normal (Some "no json here"))
                   Samples.fresh_world).2 in
  App.cache_nonempty (App.SYNONYMS_CACHE w1)
  /\ (result = empty_object ->
      App.SYNONYMS_CACHE w1 = App.SYNONYMS_CACHE Samples.fresh_world
      /\ App.SYNONYMS_CACHE w1 !! App.cacheKey "It is ok." = None
      /\ App.provider_calls w1 = App.provider_calls Samples.fresh_world ++ ["It is ok."]
      /\ forall answers,
           Forall App.no_suggestions answers ->
           App.SYNONYMS_CACHE (App.lookups "It is ok." answers w1)
             = App.SYNONYMS_CACHE Samples.fresh_world
           /\ App.provider_calls (App.lookups "It is ok." answers w1)
              = App.provider_calls w1 ++ replicate (length answers) "It is ok.").
Proof.
  apply (empty_results_never_cached "It is ok." (Normal (Some "no json here"))
           Samples.fresh_world).
  intros key v H. simpl in H. rewrite lookup_empty in H. discriminate H.
Defined.

(** ** Restoring a session *)

Lemma restore_cache_lookup (vocabularyData : jsobject) (key : string) :
  forall cache : gmap string jsval,
    NoDup vocabularyData.*1 ->
    foldl (fun cache '(key, value) => <[key := value]> cache) cache vocabularyData
      !! key
    = match own_property key vocabularyData with
      | Some v => Some v
      | None => cache !! key
      end.
Proof.
  induction vocabularyData as [|[k v] rest IH]; intros cache Hnd; simpl;
    [reflexivity |].
  apply NoDup_cons in Hnd as [Hk Hnd]. rewrite (IH _ Hnd).
  destruct (String.eqb_spec k key) as [->|Hne].
  - assert (own_property key rest = None) as ->.
    { clear -Hk. induction rest as [|[k' v'] rest IH]; simpl; [reflexivity |].
      apply not_elem_of_cons in Hk as [Hne Hk].
      destruct (String.eqb_spec k' key) as [->|_]; [done | by apply IH]. }
    apply lookup_insert_eq.
  - destruct (own_property key rest); [reflexivity |].
    by apply lookup_insert_ne.
Qed.



(** A stored session without vocabulary data skips the clear: the cache
    stays as it was. *)
Lemma loadSession_without_vocabulary
    (Date_parse : string -> Session.JsDate) (sessionId : string)
    (sessionData : Session.sessionData) (clock : nat -> Z) (st : Session.app_state) :
  Session.vocabularyData sessionData = None ->
  Session.SYNONYMS_CACHE
    (Session.loadSession Date_parse sessionId (Normal (Some sessionData)) clock st)
  = Session.SYNONYMS_CACHE st.
Proof. intros H. unfold Session.loadSession. simpl. by rewrite H. Qed.

(** The sample session: after the load the cache gives the stored list
    for [sad] and nothing for the key it held before. *)
Example loadSession_sad :
  let st' := Session.loadSession Samples.sample_Date_parse "saved"
               (Normal (Some Samples.stored_session)) Samples.sample_clock
               Samples.state_before_load in
  Session.SYNONYMS_CACHE st' !! "sad" = Some Samples.sad_synonyms
  /\ Session.SYNONYMS_CACHE st' !! "it was very good" = None
  /\ Session.SYNONYMS_CACHE Samples.state_before_load !! "it was very good"
     = Some (JObj [("very", Samples.very_synonyms)]).
Proof. vm_compute. repeat split. Qed.

Lemma restore_entries_lookup (Date_parse : string -> Session.JsDate)
    (clock : nat -> Z) (from i : nat) entries :
  Session.restore_entries Date_parse clock from entries !! i
  = Session.restore_entry Date_parse (clock (from + i)%nat) <$> entries !! i.
Proof. unfold Session.restore_entries. by rewrite list_lookup_imap. Qed.

(** A stored entry with a missing or malformed timestamp is restored with
    the reading of the clock, its other fields kept, and its cell shows
    that reading. *)
Lemma restore_entry_malformed (Date_parse : string -> Session.JsDate)
    (toLocaleTimeString : Z -> string) (now : Z) e :
  Session.malformed_timestamp Date_parse e ->
  let e' := Session.restore_entry Date_parse now e in
  Session.timestamp e' = Session.DateObject (Session.ValidDate now)
  /\ Session.id e' = Session.id e
  /\ Session.text e' = Session.text e
  /\ Session.colorIndex e' = Session.colorIndex e
  /\ forall later,
       Session.entry_timestamp_cell Date_parse toLocaleTimeString later e'
       = toLocaleTimeString now.
Proof.
  intros Hbad e'. subst e'.
  unfold Session.entry_timestamp_cell, Session.restore_entry. simpl.
  destruct Hbad as [-> | [-> | (raw & -> & Hraw)]]; simpl;
    rewrite ?Hraw; try case_match; repeat split.
Qed.

(** C8. A load whose read of the store gave a session succeeds whatever
    the timestamps are: it raises no alert, makes the session current and
    keeps every entry; and every stored entry, left or right, whose
    timestamp is missing or malformed comes back with the reading of the
    clock taken for it as its timestamp, its other fields kept, and is
    displayed with that reading. *)
Theorem loadSession_malformed_timestamp
    (Date_parse : string -> Session.JsDate) (toLocaleTimeString : Z -> string)
    (sessionId : string) (sessionData : Session.sessionData)
    (clock : nat -> Z) (st : Session.app_state) :
  let left := default [] (Session.stored_leftEntries sessionData) in
  let right := default [] (Session.stored_rightEntries sessionData) in
  let st' := Session.loadSession Date_parse sessionId
               (Normal (Some sessionData)) clock st in
  Session.alerts st' = Session.alerts st
  /\ Session.currentSessionId st' = Some sessionId
  /\ Session.isLoadingSession st' = false
  /\ length (Session.leftEntries st') = length left
  /\ length (Session.rightEntries st') = length right
  /\ (forall i e,
        left !! i = Some e ->
        Session.malformed_timestamp Date_parse e ->
        exists e',
          Session.leftEntries st' !! i = Some e'
          /\ Session.timestamp e' = Session.DateObject (Session.ValidDate (clock i))
          /\ Session.id e' = Session.id e
          /\ Session.text e' = Session.text e
          /\ Session.colorIndex e' = Session.colorIndex e
          /\ forall later,
               Session.entry_timestamp_cell Date_parse toLocaleTimeString later e'
               = toLocaleTimeString (clock i))
  /\ (forall i e,
        right !! i = Some e ->
        Session.malformed_timestamp Date_parse e ->
        exists e',
          Session.rightEntries st' !! i = Some e'
          /\ Session.timestamp e'
             = Session.DateObject (Session.ValidDate (clock (length left + i)%nat))
          /\ Session.id e' = Session.id e
          /\ Session.text e' = Session.text e
          /\ Session.colorIndex e' = Session.colorIndex e
          /\ forall later,
               Session.entry_timestamp_cell Date_parse toLocaleTimeString later e'
               = toLocaleTimeString (clock (length left + i)%nat)).
Proof.
  intros left right st'. subst st'. unfold Session.loadSession. simpl.
  fold left right.
  split; [reflexivity |]. split; [reflexivity |]. split; [reflexivity |].
  split; [apply length_imap |]. split; [apply length_imap |].
  split; intros i e Hi Hbad.
  - exists (Session.restore_entry Date_parse (clock i) e).
    split; [by rewrite restore_entries_lookup, Hi |].
    by apply restore_entry_malformed.
  - exists (Session.restore_entry Date_parse (clock (length left + i)%nat) e).
    split; [by rewrite restore_entries_lookup, Hi |].
    by apply restore_entry_malformed.
Qed.

(** The sample session: the left entry's timestamp does not parse and the
    right entry has none; both come back with the clock's reading and show
    it. *)
Example loadSession_sample_timestamps :
  let st' := Session.loadSession Samples.sample_Date_parse "saved"
               (Normal (Some Samples.stored_session)) Samples.sample_clock
               Samples.state_before_load in
  Session.timestamp <$> Session.leftEntries st'
    = [Session.DateObject (Session.ValidDate 1750000000000)]
  /\ Session.timestamp <$> Session.rightEntries st'
    = [Session.DateObject (Session.ValidDate 1750000000000)]
  /\ Session.entry_timestamp_cell Samples.sample_Date_parse
       Samples.sample_toLocaleTimeString 0 <$> Session.leftEntries st'
     = ["12:34 PM"]
  /\ Session.alerts st' = [].
Proof. vm_compute. repeat split. Qed.

(** ** Normalization *)

Lemma is_punct_lower_char (c : ascii) : is_punct (lower_char c) = is_punct c.
Proof. destruct c as [[] [] [] [] [] [] [] []]; vm_compute; reflexivity. Qed.

Lemma is_space_lower_char (c : ascii) : is_space (lower_char c) = is_space c.
Proof. destruct c as [[] [] [] [] [] [] [] []]; vm_compute; reflexivity. Qed.

Lemma filter_chars_map_chars (keep : ascii -> bool) (f : ascii -> ascii) (s : string) :
  (forall c, keep (f c) = keep c) ->
  filter_chars keep (map_chars f s) = map_chars f (filter_chars keep s).
Proof.
  intros Hf. induction s as [|c s IH]; simpl; [reflexivity |].
  rewrite Hf. destruct (keep c); simpl; by rewrite IH.
Qed.

Lemma filter_chars_all (keep : ascii -> bool) (s : string) :
  all_chars keep s = true -> filter_chars keep s = s.
Proof.
  induction s as [|c s IH]; simpl; [reflexivity |].
  intros [-> Hs]%andb_true_iff. by rewrite IH.
Qed.

Lemma all_chars_map_chars (p : ascii -> bool) (f : ascii -> ascii) (s : string) :
  (forall c, p (f c) = p c) -> all_chars p (map_chars f s) = all_chars p s.
Proof.
  intros Hf. induction s as [|c s IH]; simpl; [reflexivity |].
  by rewrite Hf, IH.
Qed.

Lemma all_chars_filter_chars (p keep : ascii -> bool) (s : string) :
  all_chars p s = true -> all_chars p (filter_chars keep s) = true.
Proof.
  induction s as [|c s IH]; simpl; [reflexivity |].
  intros [Hc Hs]%andb_true_iff. destruct (keep c); simpl; rewrite ?Hc; auto.
Qed.

Lemma all_chars_append (p : ascii -> bool) (s t : string) :
  all_chars p (s +:+ t) = all_chars p s && all_chars p t.
Proof.
  induction s as [|c s IH]; [reflexivity |].
  rewrite append_cons. simpl. by rewrite IH, andb_assoc.
Qed.

Lemma trimEnd_no_space (s : string) : all_chars not_space s = true -> trimEnd s = s.
Proof.
  induction s as [|c s IH]; simpl; [reflexivity |].
  unfold not_space at 1. intros [Hc Hs]%andb_true_iff. rewrite (IH Hs).
  destruct s; [|reflexivity]. by destruct (is_space c).
Qed.

Lemma trim_no_space (s : string) : all_chars not_space s = true -> trim s = s.
Proof.
  intros Hs. unfold trim.
  assert (trimStart s = s) as ->; [|by apply trimEnd_no_space].
  destruct s as [|c s]; simpl in *; [reflexivity |].
  unfold not_space in Hs at 1. by destruct (is_space c).
Qed.

Lemma trim_all_space (s : string) : all_chars is_space s = true -> trim s = EmptyString.
Proof.
  unfold trim. induction s as [|c s IH]; simpl; [reflexivity |].
  intros [-> Hs]%andb_true_iff. by apply IH.
Qed.

(** Every element of a split on a class is a run of the class or holds no
    character of it. *)
Lemma split_scan_elements (C : ascii -> bool) (s : string) :
  forall (in_run : bool) (cur w : string),
    (if in_run then all_chars C cur
     else all_chars (fun c => negb (C c)) cur) = true ->
    w ∈ split_scan C in_run cur s ->
    all_chars C w = true \/ all_chars (fun c => negb (C c)) w = true.
Proof.
  induction s as [|c s IH]; intros in_run cur w Hcur; simpl.
  - destruct in_run; rewrite ?elem_of_cons, elem_of_nil; intros H;
      [destruct H as [->|[->|[]]] | destruct H as [->|[]]]; auto.
  - destruct (C c) eqn:Hc, in_run; rewrite ?elem_of_cons.
    + apply IH. by rewrite all_chars_append, Hcur; simpl; rewrite Hc.
    + intros [->|H]; [by right |]. revert H. apply IH. simpl. by rewrite Hc.
    + intros [->|H]; [by left |]. revert H. apply IH. simpl. by rewrite Hc.
    + apply IH. by rewrite all_chars_append, Hcur; simpl; rewrite Hc.
Qed.

(** A word token, a non-blank element of the white-space split, holds no
    white space. *)
Lemma word_token_no_space (sentence word : string) :
  word ∈ split_capture is_space sentence ->
  truthy_string (trim word) = true ->
  all_chars not_space word = true.
Proof.
  intros Hin Hword.
  destruct (split_scan_elements is_space sentence false EmptyString word eq_refl Hin)
    as [Hsp|Hns]; [|exact Hns].
  rewrite (trim_all_space _ Hsp) in Hword. discriminate.
Qed.

Lemma cleanWord_render_hover (word : string) :
  SynonymText.cleanWord word = Hover.cleanWord word.
Proof.
  unfold SynonymText.cleanWord, Hover.cleanWord, toLowerCase, strip_punct.
  symmetry. apply filter_chars_map_chars.
  intros c. by rewrite is_punct_lower_char.
Qed.

Lemma cleanWord_no_space (word : string) :
  all_chars not_space word = true ->
  Hover.cleanWord word = Glossary.normalization word.
Proof.
  intros Hns. unfold Glossary.normalization, Hover.cleanWord.
  symmetry. apply trim_no_space. unfold strip_punct, toLowerCase.
  apply all_chars_filter_chars. rewrite all_chars_map_chars; [exact Hns |].
  intros c. unfold not_space. by rewrite is_space_lower_char.
Qed.

Lemma cacheKey_no_punct (sentence : string) :
  all_chars not_punct sentence = true ->
  App.cacheKey sentence = Glossary.normalization sentence.
Proof.
  intros Hnp. unfold Glossary.normalization, App.cacheKey, strip_punct, toLowerCase.
  rewrite filter_chars_all; [reflexivity |].
  rewrite all_chars_map_chars; [exact Hnp |].
  intros c. unfold not_punct. by rewrite is_punct_lower_char.
Qed.

(** C9 as stated fails: on [Very!] the cache key keeps the exclamation
    mark that the word checks, and the glossary's normalization, strip;
    on a padded text the cache key is trimmed and the word checks are
    not. *)
Lemma cache_key_is_another_function :
  App.cacheKey "Very!" = "very!"
  /\ SynonymText.cleanWord "Very!" = "very"
  /\ Hover.cleanWord "Very!" = "very"
  /\ Glossary.normalization "Very!" = "very"
  /\ App.cacheKey " so " = "so"
  /\ SynonymText.cleanWord " so " = " so ".
Proof. vm_compute. repeat split. Qed.

(** Trimming removes white space only, so it keeps every punctuation
    character of a text. *)
Lemma is_space_not_punct (c : ascii) : is_space c = true -> not_punct c = true.
Proof. destruct c as [[] [] [] [] [] [] [] []]; vm_compute; congruence. Qed.

Lemma all_chars_not_punct_trimStart (s : string) :
  all_chars not_punct (trimStart s) = all_chars not_punct s.
Proof.
  induction s as [|c s IH]; simpl; [reflexivity |].
  destruct (is_space c) eqn:Hc; [|reflexivity].
  by rewrite IH, (is_space_not_punct c Hc).
Qed.

Lemma all_chars_not_punct_trimEnd (s : string) :
  all_chars not_punct (trimEnd s) = all_chars not_punct s.
Proof.
  induction s as [|c s IH]; simpl; [reflexivity |].
  destruct (trimEnd s) as [|d t] eqn:Ht.
  - simpl in IH. rewrite <- IH, andb_true_r.
    destruct (is_space c) eqn:Hc; simpl.
    + by rewrite (is_space_not_punct c Hc).
    + by rewrite andb_true_r.
  - by rewrite <- IH.
Qed.

Lemma all_chars_not_punct_trim (s : string) :
  all_chars not_punct (trim s) = all_chars not_punct s.
Proof.
  unfold trim. by rewrite all_chars_not_punct_trimEnd, all_chars_not_punct_trimStart.
Qed.

Lemma all_chars_not_punct_strip_punct (s : string) :
  all_chars not_punct (strip_punct s) = true.
Proof.
  unfold strip_punct. induction s as [|c s IH]; simpl; [reflexivity |].
  destruct (negb (is_punct c)) eqn:Hc; [|exact IH].
  simpl. unfold not_punct at 1. by rewrite Hc, IH.
Qed.

(** The cache key of a text is its full normalization exactly when the
    text holds no punctuation character: the key keeps every one of
    them, the normalization holds none. *)
Lemma cacheKey_normalization_iff (text : string) :
  App.cacheKey text = Glossary.normalization text
  <-> all_chars not_punct text = true.
Proof.
  split; [|apply cacheKey_no_punct].
  intros Heq.
  assert (all_chars not_punct (App.cacheKey text) = true) as Hkey.
  { rewrite Heq. unfold Glossary.normalization.
    rewrite all_chars_not_punct_trim. apply all_chars_not_punct_strip_punct. }
  unfold App.cacheKey, toLowerCase in Hkey.
  rewrite all_chars_not_punct_trim, all_chars_map_chars in Hkey; [exact Hkey |].
  intros c. unfold not_punct. by rewrite is_punct_lower_char.
Qed.

(** C9, amended.  On the modelled text, code units below U+0100, where
    [toLowerCase] acts on each code unit by itself: for every word token
    of a sentence that is not blank, the check of rendering (strip the
    punctuation, then lowercase) and the check of hovering (lowercase,
    then strip) compute the same form, and that form is the glossary's
    normalization of the word, lowercase plus stripped punctuation plus
    trim, a token holding no white space to trim.  The cache key of a
    text is made by another function, lowercase plus trim with the
    punctuation kept: it is the glossary's normalization of the text if
    and only if the text holds no punctuation character. *)
Theorem word_checks_share_normalization (sentence word text : string) :
  word ∈ split_capture is_space sentence ->
  truthy_string (trim word) = true ->
  SynonymText.cleanWord word = Hover.cleanWord word
  /\ Hover.cleanWord word = Glossary.normalization word
  /\ (App.cacheKey text = Glossary.normalization text
      <-> all_chars not_punct text = true).
Proof.
  intros Hin Hword.
  split; [apply cleanWord_render_hover |].
  split; [|apply cacheKey_normalization_iff].
  apply cleanWord_no_space. by eapply word_token_no_space.
Qed.

Lemma word_checks_share_normalization_witness :
  SynonymText.cleanWord "Happy," = Hover.cleanWord "Happy,"
  /\ Hover.cleanWord "Happy," = Glossary.normalization "Happy,"
  /\ (App.cacheKey " I am happy, today " = Glossary.normalization " I am happy, today "
      <-> all_chars not_punct " I am happy, today " = true).
Proof.
  apply (word_checks_share_normalization "So Happy, today" "Happy,"
           " I am happy, today ").
  - vm_compute. set_solver.
  - vm_compute. reflexivity.
Defined.

(** * Further properties of the modelled code *)

(** ** The cache as seen by later lookups *)

(** A lookup that does not return the empty mapping leaves its result in
    the cache under the key of the sentence. *)
Lemma getSynonymsForSentence_cached sentence generateText (w : App.world) :
  (App.getSynonymsForSentence sentence generateText w).2 <> empty_object ->
  App.SYNONYMS_CACHE (App.getSynonymsForSentence sentence generateText w).1
    !! App.cacheKey sentence
  = Some (App.getSynonymsForSentence sentence generateText w).2.
Proof.
  unfold App.getSynonymsForSentence, App.getSynonymsForSentence_start.
  destruct (App.SYNONYMS_CACHE w !! App.cacheKey sentence) as [cached|] eqn:Hc;
    simpl; [done |].
  unfold App.getSynonymsForSentence_resume.
  destruct (App.promise_of _) as [o|]; simpl; [|congruence].
  destruct (nonempty_object o); simpl; [|congruence].
  intros _. apply lookup_insert_eq.
Qed.

(** X1. A lookup that yields suggestions serves every later lookup of a
    sentence with the same key (the same text up to letter case and
    surrounding white space): the later lookup returns the same object,
    sends no request whatever the service would answer, and leaves the
    cache as it is. *)
Theorem lookup_result_reused sentence sentence' generateText generateText'
    (w : App.world) :
  App.cacheKey sentence' = App.cacheKey sentence ->
  (App.getSynonymsForSentence sentence generateText w).2 <> empty_object ->
  let w1 := (App.getSynonymsForSentence sentence generateText w).1 in
  App.getSynonymsForSentence sentence' generateText' w1
  = (w1, (App.getSynonymsForSentence sentence generateText w).2).
Proof.
  intros Hkey Hne w1. subst w1.
  pose proof (getSynonymsForSentence_cached _ _ _ Hne) as Hc.
  destruct (App.getSynonymsForSentence sentence generateText w) as [w1 r].
  simpl in *. unfold App.getSynonymsForSentence, App.getSynonymsForSentence_start.
  by rewrite Hkey, Hc.
Qed.

Lemma lookup_result_reused_witness :
  let w1 := (App.getSynonymsForSentence "I am very happy"
               (Normal (Some Samples.answer_with_preamble)) Samples.fresh_world).1 in
  App.getSynonymsForSentence "  I AM VERY HAPPY " (Throw ServiceError) w1
  = (w1, (App.getSynonymsForSentence "I am very happy"
            (Normal (Some Samples.answer_with_preamble)) Samples.fresh_world).2).
Proof.
  apply (lookup_result_reused "I am very happy" "  I AM VERY HAPPY "
           (Normal (Some Samples.answer_with_preamble)) (Throw ServiceError)
           Samples.fresh_world).
  - vm_compute. reflexivity.
  - vm_compute. discriminate.
Defined.

(** ** Rendering and hovering together *)

(** X2. Rendering and hovering decide alike on a word whose two forms
    agree.  Rendering strips the punctuation and then lowercases, hovering
    lowercases and then strips; let the two give the same form of a word
    that is not blank (as they do on every word of the modelled text,
    [cleanWord_render_hover]; where lowercasing depends on the neighbours
    of a letter the two orders can differ).  Then a word rendered as
    interactive is never ignored by the hover handler: the handler sets
    the hovered word to that form and, when the value read under it is an
    array, the synonyms to that array and the tooltip to the computed
    position; a value that is no array makes the handler throw a
    TypeError after the hovered word was set.  And a word rendered plain
    would be ignored by the handler. *)
Theorem interactive_word_hover (Array_join_length : list jsval -> nat)
    enableSynonyms (sentenceSynonyms : jsobject)
    (rect parentRect : Hover.DOMRect) (viewportWidth : Q) (word : string) :
  truthy_string (trim word) = true ->
  SynonymText.cleanWord word = Hover.cleanWord word ->
  let outcome := Hover.handleWordHover Array_join_length enableSynonyms
                   sentenceSynonyms rect parentRect viewportWidth word in
  let v := Get sentenceSynonyms (Hover.cleanWord word) in
  (SynonymText.render_word enableSynonyms sentenceSynonyms word
     = SynonymText.SynonymWord word ->
   match v with
   | JArr elts =>
       outcome = Hover.Hovered (Hover.cleanWord word) v
                   (Hover.tooltipPosition rect parentRect viewportWidth
                      (Array_join_length elts))
   | _ => outcome = Hover.HoverThrows (Hover.cleanWord word) v TypeError
   end)
  /\ (SynonymText.render_word enableSynonyms sentenceSynonyms word
        = SynonymText.PlainWord word ->
      outcome = Hover.NoUpdate).
Proof.
  intros Hword Hforms outcome v. subst outcome v.
  unfold SynonymText.render_word, Hover.handleWordHover, Hover.join_length.
  rewrite Hforms, Hword.
  destruct enableSynonyms; simpl; [|split; [discriminate | done]].
  destruct (truthy (Get sentenceSynonyms (Hover.cleanWord word))) eqn:Ht; simpl.
  - split; [|discriminate]. intros _.
    by destruct (Get sentenceSynonyms (Hover.cleanWord word)).
  - split; [discriminate | done].
Qed.

Lemma interactive_word_hover_witness :
  let syn := [("very", Samples.very_synonyms)] in
  let outcome := Hover.handleWordHover Hover.strings_join_length true syn
                   Samples.narrow_word Samples.wide_entry 1024 "Very," in
  let v := Get syn (Hover.cleanWord "Very,") in
  (SynonymText.render_word true syn "Very," = SynonymText.SynonymWord "Very," ->
   match v with
   | JArr elts =>
       outcome = Hover.Hovered (Hover.cleanWord "Very,") v
                   (Hover.tooltipPosition Samples.narrow_word Samples.wide_entry 1024
                      (Hover.strings_join_length elts))
   | _ => outcome = Hover.HoverThrows (Hover.cleanWord "Very,") v TypeError
   end)
  /\ (SynonymText.render_word true syn "Very," = SynonymText.PlainWord "Very," ->
      outcome = Hover.NoUpdate).
Proof.
  apply (interactive_word_hover Hover.strings_join_length true
           [("very", Samples.very_synonyms)] Samples.narrow_word
           Samples.wide_entry 1024 "Very,").
  - vm_compute. reflexivity.
  - vm_compute. reflexivity.
Defined.

(** X3. With the flag on, a word whose normalized form is a property name
    of [Object.prototype] and no key of the synonym object is rendered as
    interactive, and hovering it throws a TypeError (the inherited value
    has no [join]) after the hovered word was set. *)
Theorem inherited_name_hover_throws (Array_join_length : list jsval -> nat)
    (sentenceSynonyms : jsobject) (rect parentRect : Hover.DOMRect)
    (viewportWidth : Q) (word : string) :
  truthy_string (trim word) = true ->
  own_property (Hover.cleanWord word) sentenceSynonyms = None ->
  existsb (String.eqb (Hover.cleanWord word)) Object_prototype = true ->
  SynonymText.render_word true sentenceSynonyms word = SynonymText.SynonymWord word
  /\ Hover.handleWordHover Array_join_length true sentenceSynonyms
       rect parentRect viewportWidth word
     = Hover.HoverThrows (Hover.cleanWord word) (JNative (Hover.cleanWord word))
         TypeError.
Proof.
  intros Hword Hown Hproto.
  unfold SynonymText.render_word, Hover.handleWordHover, Hover.join_length, Get.
  by rewrite cleanWord_render_hover, Hword, Hown, Hproto.
Qed.

Lemma inherited_name_hover_throws_witness :
  SynonymText.render_word true [("very", Samples.very_synonyms)] "(Constructor)"
    = SynonymText.SynonymWord "(Constructor)"
  /\ Hover.handleWordHover Hover.strings_join_length true
       [("very", Samples.very_synonyms)] Samples.narrow_word Samples.wide_entry
       1024 "(Constructor)"
     = Hover.HoverThrows (Hover.cleanWord "(Constructor)")
         (JNative (Hover.cleanWord "(Constructor)")) TypeError.
Proof.
  apply (inherited_name_hover_throws Hover.strings_join_length
           [("very", Samples.very_synonyms)] Samples.narrow_word
           Samples.wide_entry 1024 "(Constructor)");
    vm_compute; reflexivity.
Defined.

(** ** The tooltip in all three cases *)

Section TooltipAllCases.
Local Open Scope Q_scope.

(** X4. When the viewport has room for the estimated width between the
    two margins, the footprint never crosses the left margin, and it
    passes the right margin by at most half the width of the hovered
    word (the case in which neither test of the handler fires). *)
Theorem tooltip_left_margin_kept
    (rect parentRect : Hover.DOMRect) (viewportWidth : Q) (len : nat) :
  let w := Hover.tooltipEstimatedWidth len in
  let p := Hover.tooltipPosition rect parentRect viewportWidth len in
  0 <= Hover.rect_width rect ->
  w + 20 <= viewportWidth ->
  10 <= Hover.footprint_left parentRect p len
  /\ Hover.footprint_right parentRect p len
     <= viewportWidth - 10 + Hover.rect_width rect / 2.
Proof.
  intros w p Hwidth Hroom. subst p.
  unfold Hover.footprint_left, Hover.footprint_right, Hover.tooltipPosition.
  fold w. generalize dependent w. intros w.
  unfold Qdiv. change (/ 2) with (1 # 2). intros Hroom.
  destruct (Qlt_le_dec (Hover.rect_left rect - w * (1 # 2)) 10) as [Hl|Hl]; simpl.
  - repeat split; lra.
  - destruct (Qlt_le_dec (viewportWidth - 10) (Hover.rect_left rect + w * (1 # 2)))
      as [Hr|Hr]; simpl; repeat split; lra.
Qed.

Lemma tooltip_left_margin_kept_witness :
  let p := Hover.tooltipPosition Samples.long_word Samples.wide_entry 1024 40 in
  10 <= Hover.footprint_left Samples.wide_entry p 40
  /\ Hover.footprint_right Samples.wide_entry p 40
     <= 1024 - 10 + Hover.rect_width Samples.long_word / 2.
Proof.
  apply (tooltip_left_margin_kept Samples.long_word Samples.wide_entry 1024 40).
  - vm_compute. discriminate.
  - vm_compute. discriminate.
Defined.

End TooltipAllCases.

(** ** Trimming and cache keys *)

(** A text that is empty or starts with a character that is no white
    space. *)
Lemma trimStart_head (s : string) :
  match trimStart s with
  | EmptyString => True
  | String c _ => is_space c = false
  end.
Proof.
  induction s as [|c s IH]; simpl; [exact I |].
  destruct (is_space c) eqn:Hc; [exact IH | exact Hc].
Qed.

Lemma trimStart_fixed (s : string) :
  match s with
  | EmptyString => True
  | String c _ => is_space c = false
  end ->
  trimStart s = s.
Proof. destruct s as [|c s]; simpl; [done |]. by intros ->. Qed.

Lemma trimEnd_head (s : string) :
  match s with
  | EmptyString => True
  | String c _ => is_space c = false
  end ->
  match trimEnd s with
  | EmptyString => True
  | String c _ => is_space c = false
  end.
Proof.
  destruct s as [|c s]; simpl; [done |]. intros Hc.
  destruct (trimEnd s); [by rewrite Hc | exact Hc].
Qed.

Lemma trimEnd_idemp (s : string) : trimEnd (trimEnd s) = trimEnd s.
Proof.
  induction s as [|c s IH]; simpl; [reflexivity |].
  destruct (trimEnd s) as [|d t] eqn:Ht.
  - destruct (is_space c) eqn:Hc; simpl; [reflexivity | by rewrite Hc].
  - simpl in *. by rewrite IH.
Qed.

Lemma trim_idemp (s : string) : trim (trim s) = trim s.
Proof.
  unfold trim.
  rewrite (trimStart_fixed (trimEnd (trimStart s))).
  - apply trimEnd_idemp.
  - apply trimEnd_head, trimStart_head.
Qed.

Lemma trimStart_map_chars (f : ascii -> ascii) (s : string) :
  (forall c, is_space (f c) = is_space c) ->
  trimStart (map_chars f s) = map_chars f (trimStart s).
Proof.
  intros Hf. induction s as [|c s IH]; simpl; [reflexivity |].
  rewrite Hf. by destruct (is_space c).
Qed.

Lemma trimEnd_map_chars (f : ascii -> ascii) (s : string) :
  (forall c, is_space (f c) = is_space c) ->
  trimEnd (map_chars f s) = map_chars f (trimEnd s).
Proof.
  intros Hf. induction s as [|c s IH]; simpl; [reflexivity |].
  rewrite IH, Hf. destruct (trimEnd s); simpl; [by destruct (is_space c) | reflexivity].
Qed.

Lemma toLowerCase_trim (s : string) : toLowerCase (trim s) = trim (toLowerCase s).
Proof.
  unfold toLowerCase, trim.
  by rewrite trimStart_map_chars, trimEnd_map_chars
    by apply is_space_lower_char.
Qed.

Lemma lower_char_idemp (c : ascii) : lower_char (lower_char c) = lower_char c.
Proof. destruct c as [[] [] [] [] [] [] [] []]; vm_compute; reflexivity. Qed.

Lemma toLowerCase_idemp (s : string) : toLowerCase (toLowerCase s) = toLowerCase s.
Proof.
  unfold toLowerCase. induction s as [|c s IH]; simpl; [reflexivity |].
  by rewrite lower_char_idemp, IH.
Qed.

(** X5. The cache key of a sentence is that of its lowercase form, of its
    trimmed form and of the key itself: texts that differ in letter case
    or surrounding white space share one cache entry, and a key that is
    normalized again (as when stored keys are looked up) does not
    change. *)
Theorem cacheKey_classes (sentence : string) :
  App.cacheKey (toLowerCase sentence) = App.cacheKey sentence
  /\ App.cacheKey (trim sentence) = App.cacheKey sentence
  /\ App.cacheKey (App.cacheKey sentence) = App.cacheKey sentence
  /\ trim (App.cacheKey sentence) = App.cacheKey sentence.
Proof.
  unfold App.cacheKey. repeat split.
  - by rewrite toLowerCase_idemp.
  - by rewrite toLowerCase_trim, trim_idemp.
  - by rewrite toLowerCase_trim, toLowerCase_idemp, trim_idemp.
  - apply trim_idemp.
Qed.

(** ** Loading a session: failure, and what it keeps *)

(** X6. A load whose read of the store fails, or finds no session, leaves
    the entries, the conversation, the current session and the cache as
    they were: it raises one alert and clears the loading flag. *)
Theorem loadSession_failure_keeps_state
    (Date_parse : string -> Session.JsDate) (sessionId : string)
    (getNotebook : completion (option Session.sessionData))
    (clock : nat -> Z) (st : Session.app_state) :
  (forall sessionData, getNotebook <> Normal (Some sessionData)) ->
  let st' := Session.loadSession Date_parse sessionId getNotebook clock st in
  Session.leftEntries st' = Session.leftEntries st
  /\ Session.rightEntries st' = Session.rightEntries st
  /\ Session.conversationHistory st' = Session.conversationHistory st
  /\ Session.currentSessionId st' = Session.currentSessionId st
  /\ Session.SYNONYMS_CACHE st' = Session.SYNONYMS_CACHE st
  /\ Session.lastUserInput st' = Session.lastUserInput st
  /\ Session.improvedSentence st' = Session.improvedSentence st
  /\ Session.showNotebooksList st' = Session.showNotebooksList st
  /\ Session.isLoadingSession st' = false
  /\ exists msg, Session.alerts st' = Session.alerts st ++ [msg].
Proof.
  intros Hfail st'. subst st'. unfold Session.loadSession.
  destruct getNotebook as [[sessionData|]|e]; simpl.
  - by destruct (Hfail sessionData).
  - repeat split; eauto.
  - repeat split; eauto.
Qed.

Lemma loadSession_failure_keeps_state_witness :
  let st' := Session.loadSession Samples.sample_Date_parse "gone"
               (Throw ServiceError) Samples.sample_clock
               Samples.state_before_load in
  Session.leftEntries st' = Session.leftEntries Samples.state_before_load
  /\ Session.rightEntries st' = Session.rightEntries Samples.state_before_load
  /\ Session.conversationHistory st'
     = Session.conversationHistory Samples.state_before_load
  /\ Session.currentSessionId st' = Session.currentSessionId Samples.state_before_load
  /\ Session.SYNONYMS_CACHE st' = Session.SYNONYMS_CACHE Samples.state_before_load
  /\ Session.lastUserInput st' = Session.lastUserInput Samples.state_before_load
  /\ Session.improvedSentence st' = Session.improvedSentence Samples.state_before_load
  /\ Session.showNotebooksList st' = Session.showNotebooksList Samples.state_before_load
  /\ Session.isLoadingSession st' = false
  /\ exists msg, Session.alerts st' = Session.alerts Samples.state_before_load ++ [msg].
Proof.
  apply (loadSession_failure_keeps_state Samples.sample_Date_parse "gone"
           (Throw ServiceError) Samples.sample_clock Samples.state_before_load).
  intros sessionData. discriminate.
Defined.

Lemma restore_entry_valid (Date_parse : string -> Session.JsDate) (now : Z) e :
  exists ms,
    Session.timestamp (Session.restore_entry Date_parse now e)
    = Session.DateObject (Session.ValidDate ms).
Proof.
  unfold Session.restore_entry. simpl.
  destruct (Session.timestamp e) as [raw|]; [|eauto].
  destruct (truthy_string raw); [|eauto].
  destruct (Date_parse raw); eauto.
Qed.

Lemma restore_entries_fields (Date_parse : string -> Session.JsDate)
    (clock : nat -> Z) (from : nat) entries :
  Session.id <$> Session.restore_entries Date_parse clock from entries
    = Session.id <$> entries
  /\ Session.text <$> Session.restore_entries Date_parse clock from entries
    = Session.text <$> entries
  /\ Session.colorIndex <$> Session.restore_entries Date_parse clock from entries
    = Session.colorIndex <$> entries
  /\ Forall (fun e => exists ms,
               Session.timestamp e = Session.DateObject (Session.ValidDate ms))
       (Session.restore_entries Date_parse clock from entries).
Proof.
  unfold Session.restore_entries.
  repeat split.
  1-3: apply list_eq; intros i; rewrite !list_lookup_fmap, list_lookup_imap;
       by destruct (entries !! i).
  apply Forall_lookup. intros i e'. rewrite list_lookup_imap.
  destruct (entries !! i); simpl; [|discriminate].
  intros [= <-]. apply restore_entry_valid.
Qed.

(** X7. A load that finds the session keeps the stored entries in their
    order with their ids, texts and colour indices, gives every one of
    them a timestamp that is a valid date (so no entry of a loaded session
    ever needs the fallback of the timestamp cell), and keeps the date of
    every stored timestamp that parses. *)
Theorem loadSession_entries_kept
    (Date_parse : string -> Session.JsDate) (sessionId : string)
    (sessionData : Session.sessionData) (clock : nat -> Z)
    (st : Session.app_state) :
  let left := default [] (Session.stored_leftEntries sessionData) in
  let right := default [] (Session.stored_rightEntries sessionData) in
  let st' := Session.loadSession Date_parse sessionId
               (Normal (Some sessionData)) clock st in
  Session.id <$> Session.leftEntries st' = Session.id <$> left
  /\ Session.text <$> Session.leftEntries st' = Session.text <$> left
  /\ Session.colorIndex <$> Session.leftEntries st' = Session.colorIndex <$> left
  /\ Session.id <$> Session.rightEntries st' = Session.id <$> right
  /\ Session.text <$> Session.rightEntries st' = Session.text <$> right
  /\ Session.colorIndex <$> Session.rightEntries st' = Session.colorIndex <$> right
  /\ Forall (fun e => exists ms,
               Session.timestamp e = Session.DateObject (Session.ValidDate ms))
       (Session.leftEntries st' ++ Session.rightEntries st')
  /\ Session.conversationHistory st'
     = default [] (Session.stored_conversationHistory sessionData)
  /\ (forall i e raw ms,
        left !! i = Some e ->
        Session.timestamp e = Some raw ->
        truthy_string raw = true ->
        Date_parse raw = Session.ValidDate ms ->
        Session.timestamp <$> Session.leftEntries st' !! i
        = Some (Session.DateObject (Session.ValidDate ms)))
  /\ (forall i e raw ms,
        right !! i = Some e ->
        Session.timestamp e = Some raw ->
        truthy_string raw = true ->
        Date_parse raw = Session.ValidDate ms ->
        Session.timestamp <$> Session.rightEntries st' !! i
        = Some (Session.DateObject (Session.ValidDate ms))).
Proof.
  intros left right st'. subst st'. unfold Session.loadSession. simpl.
  fold left right.
  destruct (restore_entries_fields Date_parse clock 0 left) as (-> & -> & -> & Hl).
  destruct (restore_entries_fields Date_parse clock (length left) right)
    as (-> & -> & -> & Hr).
  assert (Hts : forall e raw ms now,
            Session.timestamp e = Some raw -> truthy_string raw = true ->
            Date_parse raw = Session.ValidDate ms ->
            Session.timestamp (Session.restore_entry Date_parse now e)
            = Session.DateObject (Session.ValidDate ms)).
  { intros e raw ms now Hraw Htruthy Hparse. unfold Session.restore_entry. simpl.
    by rewrite Hraw, Htruthy, Hparse. }
  repeat split; [by apply Forall_app | |];
    intros i e raw ms Hi Hraw Htruthy Hparse;
    rewrite restore_entries_lookup, Hi;
    exact (f_equal Some (Hts e raw ms _ Hraw Htruthy Hparse)).
Qed.

(** ** The lines of an entry *)

(** The tokens of one rendered line join back to the line. *)
Lemma tokenize_concat_roundtrip_lines
    (enableSynonyms : bool) (sentenceSynonyms : jsobject) (line : string) :
  join (SynonymText.rendered_tokens
          (SynonymText.renderTextWithSynonyms enableSynonyms sentenceSynonyms line))
  = line.
Proof.
  unfold SynonymText.rendered_tokens, SynonymText.renderTextWithSynonyms.
  rewrite <- list_fmap_compose.
  rewrite (join_concat_groups
             (SynonymText.sentence_tokens
                ∘ SynonymText.render_sentence enableSynonyms sentenceSynonyms)).
  - apply join_split_capture.
  - intros s. apply sentence_tokens_render_sentence.
Qed.

Lemma split_on_scan_cons (sep : ascii) (s : string) :
  forall cur, exists p rest, Lines.split_on_scan sep cur s = p :: rest.
Proof.
  induction s as [|c s IH]; intros cur; simpl; [eauto |].
  destruct (c =? sep)%char; eauto.
Qed.

Lemma join_with_cons (sep p : string) (rest : list string) :
  rest <> [] ->
  Lines.join_with sep (p :: rest) = p +:+ sep +:+ Lines.join_with sep rest.
Proof. by destruct rest. Qed.

Lemma join_with_split_on_scan (sep : ascii) (s : string) :
  forall cur,
    Lines.join_with (String sep EmptyString) (Lines.split_on_scan sep cur s)
    = cur +:+ s.
Proof.
  induction s as [|c s IH]; intros cur; simpl; [by rewrite append_empty_r |].
  destruct (Ascii.eqb_spec c sep) as [->|Hne].
  - destruct (split_on_scan_cons sep s EmptyString) as (p & rest & Hs).
    rewrite join_with_cons by (rewrite Hs; discriminate).
    by rewrite IH.
  - rewrite IH. by rewrite append_assoc.
Qed.

Lemma length_split_on_scan (sep : ascii) (s : string) :
  forall cur,
    length (Lines.split_on_scan sep cur s) = S (Lines.count_char sep s).
Proof.
  induction s as [|c s IH]; intros cur; simpl; [reflexivity |].
  destruct (c =? sep)%char; simpl; by rewrite IH.
Qed.

Lemma split_on_scan_free (sep : ascii) (s : string) :
  forall cur,
    Lines.free_of sep cur = true ->
    Forall (fun p => Lines.free_of sep p = true) (Lines.split_on_scan sep cur s).
Proof.
  unfold Lines.free_of.
  induction s as [|c s IH]; intros cur Hcur; simpl; [by constructor |].
  destruct (c =? sep)%char eqn:Hc.
  - constructor; [exact Hcur | by apply IH].
  - apply IH. rewrite all_chars_append, Hcur. simpl. by rewrite Hc.
Qed.

Lemma all_chars_join (p : ascii -> bool) (parts : list string) :
  all_chars p (join parts) = true <-> Forall (fun s => all_chars p s = true) parts.
Proof.
  induction parts as [|s parts IH]; simpl.
  - split; [constructor | done].
  - rewrite all_chars_append, andb_true_iff, IH, Forall_cons. done.
Qed.

(** X8. The lines of an entry.  [SynonymText] renders one line for each
    line of the text, one more than the text has line feeds; the texts of
    the rendered lines joined by line feeds give the text back; and no
    token of any line holds a line feed. *)
Theorem render_lines_roundtrip
    (enableSynonyms : bool) (sentenceSynonyms : jsobject) (text : string) :
  let lines := Lines.render_lines enableSynonyms sentenceSynonyms text in
  Lines.join_with (String Lines.LF EmptyString) (Lines.line_text <$> lines) = text
  /\ length lines = S (Lines.count_char Lines.LF text)
  /\ Forall (fun spans =>
               Forall (fun token => Lines.free_of Lines.LF token = true)
                 (SynonymText.rendered_tokens spans)) lines.
Proof.
  intros lines. subst lines. unfold Lines.render_lines, Lines.line_text.
  repeat split.
  - rewrite <- list_fmap_compose.
    rewrite (list_fmap_ext _ id (Lines.split_on Lines.LF text)).
    + rewrite list_fmap_id. apply join_with_split_on_scan.
    + intros i line _. apply tokenize_concat_roundtrip_lines.
  - rewrite length_fmap. apply length_split_on_scan.
  - apply Forall_fmap.
    eapply Forall_impl; [apply (split_on_scan_free Lines.LF text EmptyString eq_refl) |].
    intros line Hline. simpl. apply all_chars_join.
    by rewrite tokenize_concat_roundtrip_lines.
Qed.

(** ** The helpers of the provider module *)

Lemma all_chars_trimStart (p : ascii -> bool) (s : string) :
  all_chars p s = true -> all_chars p (trimStart s) = true.
Proof.
  induction s as [|c s IH]; simpl; [done |].
  intros [Hc Hs]%andb_true_iff. destruct (is_space c); [by apply IH |].
  simpl. by rewrite Hc, Hs.
Qed.

Lemma all_chars_trimEnd (p : ascii -> bool) (s : string) :
  all_chars p s = true -> all_chars p (trimEnd s) = true.
Proof.
  induction s as [|c s IH]; simpl; [done |].
  intros [Hc Hs]%andb_true_iff. specialize (IH Hs).
  destruct (trimEnd s); [destruct (is_space c); simpl; by rewrite ?Hc |].
  simpl in *. by rewrite Hc, IH.
Qed.

Lemma all_chars_trim (p : ascii -> bool) (s : string) :
  all_chars p s = true -> all_chars p (trim s) = true.
Proof. intros H. by apply all_chars_trimEnd, all_chars_trimStart. Qed.

(** X9. [getVocabularySuggestions] never throws.  From an answer of the
    service it returns one suggestion more than the trimmed answer has
    commas, each free of commas and of surrounding white space; when the
    service fails or answers nothing it returns the empty list. *)
Theorem getVocabularySuggestions_shape (generateText : completion (option string)) :
  let suggestions := Helpers.getVocabularySuggestions generateText in
  Forall (fun w => trim w = w /\ Lines.free_of "," w = true) suggestions
  /\ match generateText with
     | Normal (Some answer) =>
         length suggestions = S (Lines.count_char "," (trim answer))
     | _ => suggestions = []
     end.
Proof.
  unfold Helpers.getVocabularySuggestions, Helpers.trimmed_answer.
  destruct generateText as [[answer|]|e]; simpl; try (split; [constructor | done]).
  split.
  - apply Forall_fmap.
    eapply Forall_impl;
      [apply (split_on_scan_free "," (trim answer) EmptyString eq_refl) |].
    intros w Hw. simpl. split; [apply trim_idemp | by apply all_chars_trim].
  - rewrite length_fmap. apply length_split_on_scan.
Qed.

(** The history after a chat that succeeds. *)
Lemma chatWithChild_history history childMessage generateText :
  match Helpers.chatWithChild history childMessage generateText with
  | Helpers.Fulfilled r =>
      exists a,
        Helpers.trimmed_answer generateText = Some a
        /\ Helpers.response r = a
        /\ Helpers.updatedHistory r
           = history ++ [Helpers.user_message childMessage;
                         Helpers.assistant_message a]
  | Helpers.Rejected _ => Helpers.trimmed_answer generateText = None
  end.
Proof.
  unfold Helpers.chatWithChild.
  destruct (Helpers.trimmed_answer generateText) as [a|]; [|done].
  exists a. by rewrite <- app_assoc.
Qed.

Lemma conversation_closed_form turns :
  forall history,
    Helpers.conversation history turns
    = history
      ++ concat ((fun '(m, a) => [Helpers.user_message m; Helpers.assistant_message a])
                   <$> Helpers.answered_turns turns).
Proof.
  induction turns as [|[m g] turns IH]; intros history; simpl.
  - by rewrite app_nil_r.
  - pose proof (chatWithChild_history history m g) as Hc.
    unfold Helpers.answered_turns in *. simpl.
    destruct (Helpers.chatWithChild history m g) as [r|msg].
    + destruct Hc as (a & -> & _ & ->). simpl. rewrite IH. by rewrite <- app_assoc.
    + rewrite Hc. simpl. apply IH.
Qed.

Lemma alternating_roles (answered : list (string * string)) :
  forall i msg,
    concat ((fun '(m, a) => [Helpers.user_message m; Helpers.assistant_message a])
              <$> answered) !! i = Some msg ->
    Session.role msg = if Nat.even i then "user" else "assistant".
Proof.
  induction answered as [|[m a] answered IH]; intros i msg; simpl; [done |].
  destruct i as [|[|i]]; simpl.
  - by intros [= <-].
  - by intros [= <-].
  - apply IH.
Qed.

(** X10. The conversation over any run of submitted messages, started
    from the empty history: the history holds, for each chat that
    succeeded and in their order, the child's message as sent followed by
    the trimmed answer, and nothing for a chat that failed; so it has two
    messages for each answered turn and its roles alternate, user
    first. *)
Theorem conversation_alternates
    (turns : list (string * completion (option string))) :
  let history := Helpers.conversation [] turns in
  history
  = concat ((fun '(m, a) => [Helpers.user_message m; Helpers.assistant_message a])
              <$> Helpers.answered_turns turns)
  /\ length history = 2 * length (Helpers.answered_turns turns)
  /\ forall i msg,
       history !! i = Some msg ->
       Session.role msg = if Nat.even i then "user" else "assistant".
Proof.
  intros history. subst history. rewrite conversation_closed_form. simpl.
  repeat split.
  - induction (Helpers.answered_turns turns) as [|[m a] l IH];
      unfold fmap in *; simpl in *; lia.
  - apply alternating_roles.
Qed.

(** ** The sentence corrector *)

(** X11. [getImprovedSentence] never throws and never makes a sentence
    empty: it returns the original sentence, or the answer of the service
    trimmed, and the latter only when that is not empty (so the result has
    no surrounding white space unless it is the original). *)
Theorem getImprovedSentence_fallback (originalSentence : string)
    (generateText : completion (option string)) :
  let result := Improvement.getImprovedSentence originalSentence generateText in
  (result = originalSentence
   \/ exists answer,
        generateText = Normal (Some answer)
        /\ result = trim answer
        /\ trim result = result
        /\ truthy_string result = true)
  /\ (truthy_string originalSentence = true -> truthy_string result = true)
  /\ match generateText with
     | Normal (Some answer) =>
         truthy_string (trim answer) = false -> result = originalSentence
     | _ => result = originalSentence
     end.
Proof.
  unfold Improvement.getImprovedSentence.
  destruct generateText as [[answer|]|e]; simpl; try by auto.
  destruct (truthy_string (trim answer)) eqn:Ht.
  - split; [right; exists answer; by rewrite trim_idemp |]. done.
  - auto.
Qed.

(** A split has one piece more than it has separators. *)
Lemma split_scan_parity (C : ascii -> bool) (s : string) :
  forall in_run cur,
    Nat.odd (length (split_scan C in_run cur s)) = negb in_run.
Proof.
  induction s as [|c s IH]; intros in_run cur; simpl.
  - by destruct in_run.
  - destruct (C c), in_run; simpl length; rewrite ?Nat.odd_succ, <- ?Nat.negb_odd, ?IH;
      done.
Qed.

Lemma join_with_pieces (parts : list string) :
  forall n, length parts <= n ->
    Nat.odd (length parts) = true ->
    Forall (fun sep => sep = " ") (Improvement.separators parts) ->
    Lines.join_with " " (Improvement.pieces parts) = join parts.
Proof.
  intros n. revert parts. induction n as [|n IH]; intros parts Hn Hodd Hsep.
  - destruct parts; [done | simpl in Hn; lia].
  - destruct parts as [|p [|sep rest]]; [done | |].
    + simpl. by rewrite append_empty_r.
    + change (Improvement.separators (p :: sep :: rest))
        with (sep :: Improvement.separators rest) in Hsep.
      apply Forall_cons in Hsep as [-> Hsep].
      change (Improvement.pieces (p :: " " :: rest))
        with (p :: Improvement.pieces rest).
      destruct rest as [|q rest']; [done |].
      rewrite join_with_cons by (by destruct rest').
      rewrite (IH (q :: rest')); [done | simpl in Hn |- *; lia | | done].
      simpl length in Hodd. by rewrite !Nat.odd_succ_succ in Hodd.
Qed.

(** X12. [highlightDifferences].  When the improved sentence is empty or
    equal to the original, nothing is in bold.  Otherwise the words in
    bold are, in their order, the white-space separated words of the
    improved sentence whose form, lowercase and then punctuation
    stripped, is none of the white-space separated words of the
    lowercased original.  In both cases no word is altered: when the
    words of the improved sentence are separated by single spaces, the
    text shown is the improved sentence. *)
Theorem highlightDifferences_words (original improved : string) :
  let h := Improvement.highlightDifferences original improved in
  Improvement.bold_words h
  = (if negb (truthy_string improved) || String.eqb improved original then []
     else List.filter
            (fun w => negb (Improvement.includes
                              (Improvement.split_ws (toLowerCase original))
                              (Hover.cleanWord w)))
            (Improvement.split_ws improved))
  /\ (Forall (fun sep => sep = " ")
        (Improvement.separators (split_capture is_space improved)) ->
      Improvement.highlighted_text h = improved).
Proof.
  unfold Improvement.highlightDifferences.
  destruct (negb (truthy_string improved) || String.eqb improved original);
    simpl; [done |].
  split.
  - induction (Improvement.split_ws improved) as [|w l IH]; [done |].
    rewrite fmap_cons. unfold Hover.cleanWord in *. simpl.
    destruct (negb (Improvement.includes _ (strip_punct (toLowerCase w))));
      simpl; [f_equal |]; exact IH.
  - intros Hsep. rewrite <- list_fmap_compose.
    rewrite (list_fmap_ext _ id (Improvement.split_ws improved)).
    + rewrite list_fmap_id. unfold Improvement.split_ws.
      rewrite (join_with_pieces _ _ (le_n _)); [apply join_split_capture | | done].
      apply (split_scan_parity is_space improved false EmptyString).
    + intros i w _. simpl. by case_match.
Qed.

(** The sample correction: the added word and the word that changed its
    ending are in bold, the text shown is the improved sentence. *)
Example highlightDifferences_sample :
  let h := Improvement.highlightDifferences "I am happy." "I am very Happy!" in
  Improvement.bold_words h = ["very"; "Happy!"]
  /\ Improvement.highlighted_text h = "I am very Happy!"
  /\ Improvement.bold_words
       (Improvement.highlightDifferences "I am happy" "I am very Happy!")
     = ["very"].
Proof. vm_compute. repeat split. Qed.

(** ** Saving and loading back *)

Lemma own_property_obj_set (k k' : string) (v : jsval) (o : jsobject) :
  own_property k (obj_set k' v o)
  = if String.eqb k' k then Some v else own_property k o.
Proof.
  induction o as [|[k0 v0] o IH]; simpl.
  - by destruct (String.eqb k' k).
  - destruct (String.eqb_spec k0 k') as [->|Hne]; simpl.
    + by destruct (String.eqb k' k).
    + destruct (String.eqb_spec k0 k) as [->|Hne'].
      * destruct (String.eqb_spec k' k) as [->|_]; [done | reflexivity].
      * exact IH.
Qed.

Lemma obj_set_keys (k : string) (v : jsval) (o : jsobject) (x : string) :
  x ∈ (obj_set k v o).*1 -> x = k \/ x ∈ o.*1.
Proof.
  induction o as [|[k0 v0] o IH]; simpl.
  - rewrite list_elem_of_singleton. auto.
  - destruct (String.eqb_spec k0 k) as [->|Hne]; simpl;
      rewrite !elem_of_cons; [tauto |].
    intros [->|H]; [tauto |]. destruct (IH H); tauto.
Qed.

Lemma obj_set_NoDup (k : string) (v : jsval) (o : jsobject) :
  NoDup o.*1 -> NoDup (obj_set k v o).*1.
Proof.
  induction o as [|[k0 v0] o IH]; simpl; intros Hnd.
  - apply NoDup_singleton.
  - apply NoDup_cons in Hnd as [Hk0 Hnd].
    destruct (String.eqb_spec k0 k) as [->|Hne]; simpl.
    + by apply NoDup_cons.
    + apply NoDup_cons. split; [|by apply IH].
      intros [->|Hin]%obj_set_keys; done.
Qed.

Lemma export_fold_NoDup (l : list (string * jsval)) :
  forall o : jsobject,
    NoDup o.*1 ->
    NoDup (foldl (fun obj '(key, value) => Saving.assign obj key value) o l).*1.
Proof.
  induction l as [|[k v] l IH]; intros o Hnd; simpl; [exact Hnd |].
  apply IH. unfold Saving.assign.
  destruct (String.eqb k "__proto__"); [exact Hnd | by apply obj_set_NoDup].
Qed.

Lemma export_fold_lookup (key : string) (l : list (string * jsval)) :
  forall o : jsobject,
    NoDup l.*1 ->
    own_property key
      (foldl (fun obj '(key, value) => Saving.assign obj key value) o l)
    = if String.eqb key "__proto__" then own_property key o
      else match (list_to_map l : gmap string jsval) !! key with
           | Some v => Some v
           | None => own_property key o
           end.
Proof.
  induction l as [|[k v] l IH]; intros o Hnd; simpl.
  - rewrite lookup_empty. by destruct (String.eqb key "__proto__").
  - apply NoDup_cons in Hnd as [Hk Hnd]. rewrite (IH _ Hnd).
    unfold Saving.assign.
    destruct (String.eqb_spec key "__proto__") as [->|Hkey].
    + destruct (String.eqb_spec k "__proto__") as [->|Hne]; [done |].
      rewrite own_property_obj_set. by destruct (String.eqb_spec k "__proto__").
    + destruct (decide (k = key)) as [->|Hne].
      * rewrite lookup_insert_eq.
        assert ((list_to_map l : gmap string jsval) !! key = None) as ->
          by by apply not_elem_of_list_to_map_1.
        destruct (String.eqb_spec key "__proto__"); [done |].
        rewrite own_property_obj_set. by rewrite String.eqb_refl.
      * rewrite lookup_insert_ne by done.
        destruct ((list_to_map l : gmap string jsval) !! key); [done |].
        destruct (String.eqb k "__proto__"); [done |].
        rewrite own_property_obj_set. by destruct (String.eqb_spec k key).
Qed.

(** The cache written by a save and read back by a load: the cache, less
    the key [__proto__]. *)
Lemma restore_export_cache (cache : gmap string jsval) :
  Session.restore_cache (Saving.export_cache cache) = delete "__proto__" cache.
Proof.
  apply map_eq. intros key.
  unfold Session.restore_cache, Saving.export_cache.
  rewrite restore_cache_lookup by (apply export_fold_NoDup; constructor).
  rewrite export_fold_lookup by apply NoDup_fst_map_to_list.
  rewrite list_to_map_to_list, lookup_empty. simpl.
  destruct (String.eqb_spec key "__proto__") as [->|Hne].
  - by rewrite lookup_delete_eq.
  - rewrite lookup_delete_ne by done. by destruct (cache !! key).
Qed.

Lemma restore_serialize_entry (toISOString : Z -> string)
    (Date_parse : string -> Session.JsDate) (now : Z) e stored :
  Saving.roundtrip_timestamp toISOString Date_parse e ->
  Saving.serialize_entry toISOString e = Some stored ->
  Session.restore_entry Date_parse now stored = e.
Proof.
  intros (ms & Hts & Hparse & Htruthy). unfold Saving.serialize_entry.
  rewrite Hts. intros [= <-]. unfold Session.restore_entry. simpl.
  rewrite Htruthy, Hparse. destruct e. simpl in *. by rewrite Hts.
Qed.

Lemma restore_serialize_entries (toISOString : Z -> string)
    (Date_parse : string -> Session.JsDate) (clock : nat -> Z) (from : nat)
    entries stored :
  Forall (Saving.roundtrip_timestamp toISOString Date_parse) entries ->
  mapM (Saving.serialize_entry toISOString) entries = Some stored ->
  Session.restore_entries Date_parse clock from stored = entries.
Proof.
  intros Hok Hmap. apply mapM_Some in Hmap.
  apply list_eq. intros i. rewrite restore_entries_lookup.
  destruct (entries !! i) as [e|] eqn:He.
  - destruct (Forall2_lookup_l _ _ _ _ _ Hmap He) as (se & -> & Hse). simpl.
    f_equal. eapply restore_serialize_entry; [|exact Hse].
    by eapply Forall_lookup_1.
  - apply Forall2_length in Hmap.
    rewrite (lookup_ge_None_2 stored i); [done |].
    apply lookup_ge_None_1 in He. lia.
Qed.

(** X13. Save and load back.  When a save goes through and every entry
    in memory has a valid date that the store's ISO string gives back,
    loading the written document (from any state) restores the left and
    right entries and the conversation exactly, makes the saved session
    current, and restores the cache less the key [__proto__], which the
    export cannot write. *)
Theorem save_then_load
    (toISOString : Z -> string) (Date_parse : string -> Session.JsDate)
    (title lastUpdated : string) (updateNotebook : completion unit)
    (st other : Session.app_state) (clock : nat -> Z)
    (sessionId : string) (data : Saving.notebook_update) :
  Saving.saveCurrentSessionWithRetry toISOString title lastUpdated updateNotebook st
    = Saving.Saved sessionId data ->
  Forall (Saving.roundtrip_timestamp toISOString Date_parse)
    (Session.leftEntries st ++ Session.rightEntries st) ->
  let st' := Session.loadSession Date_parse sessionId
               (Normal (Some (Saving.stored_document data))) clock other in
  Session.leftEntries st' = Session.leftEntries st
  /\ Session.rightEntries st' = Session.rightEntries st
  /\ Session.conversationHistory st' = Session.conversationHistory st
  /\ Session.currentSessionId st' = Session.currentSessionId st
  /\ Session.SYNONYMS_CACHE st' = delete "__proto__" (Session.SYNONYMS_CACHE st)
  /\ Session.alerts st' = Session.alerts other.
Proof.
  intros Hsave [Hleft Hright]%Forall_app st'. subst st'.
  unfold Saving.saveCurrentSessionWithRetry in Hsave.
  destruct (Session.currentSessionId st) as [id|] eqn:Hid; [|discriminate].
  destruct (negb (truthy_string id)); [discriminate |].
  destruct (_ && _); [discriminate |].
  destruct (mapM _ (Session.leftEntries st)) as [l|] eqn:Hl; [|discriminate].
  destruct (mapM _ (Session.rightEntries st)) as [r|] eqn:Hr; [|discriminate].
  destruct updateNotebook; [|discriminate].
  injection Hsave as <- <-.
  unfold Session.loadSession. simpl.
  rewrite (restore_serialize_entries _ _ _ _ _ _ Hleft Hl).
  rewrite (restore_serialize_entries _ _ _ _ _ _ Hright Hr).
  rewrite restore_export_cache. done.
Qed.

Lemma save_then_load_witness :
  let data :=
    {| Saving.title := "Journal";
       Saving.update_leftEntries :=
         [ {| Session.id := 11; Session.text := "It was very good";
              Session.timestamp := Some "2025-03-01T10:00:00.000Z";
              Session.colorIndex := Some 0%Z |} ];
       Saving.update_rightEntries :=
         [ {| Session.id := 12; Session.text := "What made it good?";
              Session.timestamp := Some "2025-03-01T10:00:00.000Z";
              Session.colorIndex := Some 0%Z |} ];
       Saving.update_conversationHistory :=
         Session.conversationHistory MoreSamples.state_in_session;
       Saving.update_vocabularyData :=
         Saving.export_cache (Session.SYNONYMS_CACHE MoreSamples.state_in_session);
       Saving.lastUpdated := "2025-03-01T10:05:00.000Z" |} in
  let st' := Session.loadSession Samples.sample_Date_parse "session-1"
               (Normal (Some (Saving.stored_document data))) Samples.sample_clock
               Samples.state_before_load in
  Session.leftEntries st' = Session.leftEntries MoreSamples.state_in_session
  /\ Session.rightEntries st' = Session.rightEntries MoreSamples.state_in_session
  /\ Session.conversationHistory st'
     = Session.conversationHistory MoreSamples.state_in_session
  /\ Session.currentSessionId st'
     = Session.currentSessionId MoreSamples.state_in_session
  /\ Session.SYNONYMS_CACHE st'
     = delete "__proto__" (Session.SYNONYMS_CACHE MoreSamples.state_in_session)
  /\ Session.alerts st' = Session.alerts Samples.state_before_load.
Proof.
  apply (save_then_load MoreSamples.sample_toISOString Samples.sample_Date_parse
           "Journal" "2025-03-01T10:05:00.000Z" (Normal tt)
           MoreSamples.state_in_session Samples.state_before_load
           Samples.sample_clock "session-1").
  - reflexivity.
  - repeat constructor; exists 1740823200000%Z; repeat split.
Defined.

(** ** Saving after a load *)

Lemma serialize_valid_entries (toISOString : Z -> string)
    (entries : list (Session.entry Session.timestamp_field)) :
  Forall (fun e => exists ms,
            Session.timestamp e = Session.DateObject (Session.ValidDate ms))
    entries ->
  exists stored,
    mapM (Saving.serialize_entry toISOString) entries = Some stored
    /\ Session.text <$> stored = Session.text <$> entries
    /\ Session.id <$> stored = Session.id <$> entries
    /\ Forall (fun e => exists ms, Session.timestamp e = Some (toISOString ms)) stored.
Proof.
  induction 1 as [|e entries (ms & Hts) _ (stored & Hmap & Htext & Hid & Hall)].
  - exists []. repeat split; constructor.
  - set (se := {| Session.id := Session.id e; Session.text := Session.text e;
                  Session.timestamp := Some (toISOString ms);
                  Session.colorIndex := Session.colorIndex e |}).
    assert (Hse : Saving.serialize_entry toISOString e = Some se)
      by (unfold Saving.serialize_entry; by rewrite Hts).
    exists (se :: stored). split.
    { apply mapM_Some. constructor; [exact Hse | by apply mapM_Some]. }
    rewrite !fmap_cons, Htext, Hid. repeat split.
    constructor; [by exists ms | exact Hall].
Qed.

(** X14. A save that follows a load does not fail on a timestamp.  After
    a load that found a session with at least one entry, a save (with the
    store accepting the update) goes through under the loaded session's
    id, writes every entry with its id and text, and writes an ISO string
    as the timestamp of every entry, also of those stored without one or
    with a malformed one. *)
Theorem save_after_load
    (toISOString : Z -> string) (Date_parse : string -> Session.JsDate)
    (sessionId title lastUpdated : string) (sessionData : Session.sessionData)
    (clock : nat -> Z) (st : Session.app_state) :
  let left := default [] (Session.stored_leftEntries sessionData) in
  let right := default [] (Session.stored_rightEntries sessionData) in
  truthy_string sessionId = true ->
  left ++ right <> [] ->
  exists data,
    Saving.saveCurrentSessionWithRetry toISOString title lastUpdated (Normal tt)
      (Session.loadSession Date_parse sessionId (Normal (Some sessionData)) clock st)
    = Saving.Saved sessionId data
    /\ Session.text <$> Saving.update_leftEntries data = Session.text <$> left
    /\ Session.id <$> Saving.update_leftEntries data = Session.id <$> left
    /\ Session.text <$> Saving.update_rightEntries data = Session.text <$> right
    /\ Session.id <$> Saving.update_rightEntries data = Session.id <$> right
    /\ Forall (fun e => exists ms, Session.timestamp e = Some (toISOString ms))
         (Saving.update_leftEntries data ++ Saving.update_rightEntries data).
Proof.
  intros left right Hid Hentries.
  unfold Saving.saveCurrentSessionWithRetry, Session.loadSession. simpl.
  fold left right. rewrite Hid. simpl.
  destruct (restore_entries_fields Date_parse clock 0 left) as (Hlid & Hltext & _ & Hl).
  destruct (restore_entries_fields Date_parse clock (length left) right)
    as (Hrid & Hrtext & _ & Hr).
  destruct (serialize_valid_entries toISOString _ Hl) as (l & -> & Hl1 & Hl2 & Hl3).
  destruct (serialize_valid_entries toISOString _ Hr) as (r & -> & Hr1 & Hr2 & Hr3).
  assert ((length (Session.restore_entries Date_parse clock 0 left) =? 0)
          && (length (Session.restore_entries Date_parse clock (length left) right) =? 0)
          = false) as ->.
  { unfold Session.restore_entries. rewrite !length_imap.
    destruct left, right; simpl; done. }
  eexists. split; [reflexivity |]. simpl.
  rewrite Hl1, Hl2, Hr1, Hr2, Hltext, Hlid, Hrtext, Hrid.
  repeat split. by apply Forall_app.
Qed.

Lemma save_after_load_witness :
  exists data,
    Saving.saveCurrentSessionWithRetry MoreSamples.sample_toISOString "Journal"
      "2025-03-01T10:05:00.000Z" (Normal tt)
      (Session.loadSession Samples.sample_Date_parse "saved"
         (Normal (Some Samples.stored_session)) Samples.sample_clock
         Samples.state_before_load)
    = Saving.Saved "saved" data
    /\ Session.text <$> Saving.update_leftEntries data
       = Session.text <$> default [] (Session.stored_leftEntries Samples.stored_session)
    /\ Session.id <$> Saving.update_leftEntries data
       = Session.id <$> default [] (Session.stored_leftEntries Samples.stored_session)
    /\ Session.text <$> Saving.update_rightEntries data
       = Session.text <$> default [] (Session.stored_rightEntries Samples.stored_session)
    /\ Session.id <$> Saving.update_rightEntries data
       = Session.id <$> default [] (Session.stored_rightEntries Samples.stored_session)
    /\ Forall (fun e => exists ms,
                 Session.timestamp e = Some (MoreSamples.sample_toISOString ms))
         (Saving.update_leftEntries data ++ Saving.update_rightEntries data).
Proof.
  apply (save_after_load MoreSamples.sample_toISOString Samples.sample_Date_parse
           "saved" "Journal" "2025-03-01T10:05:00.000Z" Samples.stored_session
           Samples.sample_clock Samples.state_before_load).
  - reflexivity.
  - discriminate.
Defined.

(** ** Creating a session once *)

(** X15. While a creation is awaited, and after one succeeded, no call of
    [createNewSession] sends a request, whatever value of the session id
    the calling render saw: a call that sent its request sets the ref, a
    second call returns at once with the id it saw, and the success of the
    first keeps the ref set and stores the id.  After a failure the ref is
    cleared and the next call sends a request again. *)
Theorem createNewSession_once (seen seen' : option string) (st : Creation.creation) :
  (Creation.createNewSession_start seen st).2 = Creation.AwaitingStore ->
  let st1 := (Creation.createNewSession_start seen st).1 in
  Creation.create_requests st1 = S (Creation.create_requests st)
  /\ Creation.createNewSession_start seen' st1 = (st1, Creation.Returned seen')
  /\ (forall sessionId,
        let st2 := (Creation.createNewSession_finish (Normal sessionId) st1).1 in
        Creation.currentSessionId st2 = Some sessionId
        /\ Creation.createNewSession_start seen' st2 = (st2, Creation.Returned seen'))
  /\ (forall e,
        let st2 := (Creation.createNewSession_finish (Throw e) st1).1 in
        Creation.currentSessionId st2 = Creation.currentSessionId st
        /\ Creation.create_requests st2 = S (Creation.create_requests st)
        /\ (Creation.createNewSession_start None st2).2 = Creation.AwaitingStore
        /\ Creation.create_requests (Creation.createNewSession_start None st2).1
           = S (S (Creation.create_requests st))).
Proof.
  unfold Creation.createNewSession_start.
  destruct (Creation.sessionCreatedRef st || Creation.truthy_id seen); [discriminate |].
  simpl. intros _. repeat split.
Qed.

Lemma createNewSession_once_witness :
  let st := {| Creation.sessionCreatedRef := false;
               Creation.currentSessionId := None;
               Creation.create_requests := 0 |} in
  let st1 := (Creation.createNewSession_start None st).1 in
  Creation.create_requests st1 = S (Creation.create_requests st)
  /\ Creation.createNewSession_start None st1 = (st1, Creation.Returned None)
  /\ (forall sessionId,
        let st2 := (Creation.createNewSession_finish (Normal sessionId) st1).1 in
        Creation.currentSessionId st2 = Some sessionId
        /\ Creation.createNewSession_start None st2 = (st2, Creation.Returned None))
  /\ (forall e,
        let st2 := (Creation.createNewSession_finish (Throw e) st1).1 in
        Creation.currentSessionId st2 = Creation.currentSessionId st
        /\ Creation.create_requests st2 = S (Creation.create_requests st)
        /\ (Creation.createNewSession_start None st2).2 = Creation.AwaitingStore
        /\ Creation.create_requests (Creation.createNewSession_start None st2).1
           = S (S (Creation.create_requests st))).
Proof.
  apply (createNewSession_once None None
           {| Creation.sessionCreatedRef := false;
              Creation.currentSessionId := None;
              Creation.create_requests := 0 |}).
  reflexivity.
Defined.

(** ** A completed lookup and a later mount *)

Lemma nonempty_object_truthy_with_keys (v : jsval) :
  nonempty_object v = true -> truthy_with_keys v = true.
Proof.
  unfold nonempty_object, truthy_with_keys.
  intros [[-> _]%andb_true_iff ->]%andb_true_iff. done.
Qed.

(** X16. A lookup from mount to completion, and an entry mounted later.
    When the effect of one entry sent a request and the provider's result
    is not empty, then after the lookup completed exactly one request was
    sent, the entry holds the result and its guard is released; and the
    effect of another idle entry whose text has the same cache key takes
    the same result from the cache without sending a request. *)
Theorem completed_lookup_serves_later_mount
    (id1 id2 : nat) (c1 c2 : App.component)
    (generateText : completion (option string)) (w : App.world) :
  App.components w !! id1 = Some c1 ->
  App.components w !! id2 = Some c2 ->
  id1 <> id2 ->
  App.enableSynonyms c2 = true ->
  truthy_string (trim (App.text c2)) = true ->
  App.isLoadingRef c2 = false ->
  App.cacheKey (App.text c2) = App.cacheKey (App.text c1) ->
  (App.useEffect_synonyms id1 w).2 = Some App.AwaitingProvider ->
  let w1 := (App.useEffect_synonyms id1 w).1 in
  let resumed := App.getSynonymsForSentence_resume (App.text c1)
                   (App.promise_of (CustomAIService.getSynonymsForSentence generateText))
                   w1 in
  let w3 := App.loadSentenceSynonyms_finish id1 resumed.2 resumed.1 in
  resumed.2 <> empty_object ->
  App.provider_calls w3 = App.provider_calls w ++ [App.text c1]
  /\ (exists c1', App.components w3 !! id1 = Some c1'
                  /\ App.sentenceSynonyms c1' = resumed.2
                  /\ App.isLoadingRef c1' = false)
  /\ (App.useEffect_synonyms id2 w3).2 = None
  /\ App.provider_calls (App.useEffect_synonyms id2 w3).1 = App.provider_calls w3
  /\ exists c2', App.components (App.useEffect_synonyms id2 w3).1 !! id2 = Some c2'
                 /\ App.sentenceSynonyms c2' = resumed.2.
Proof.
  intros Hc1 Hc2 Hne Hen Htext Hidle Hkey.
  unfold App.useEffect_synonyms at 1 2. rewrite Hc1.
  destruct (_ && _); [|discriminate].
  destruct (App.SYNONYMS_CACHE w !! App.cacheKey (App.text c1)) eqn:Hmiss;
    [discriminate |].
  unfold App.loadSentenceSynonyms_start. rewrite Hc1.
  destruct (_ || _); [discriminate |].
  unfold App.getSynonymsForSentence_start. simpl. rewrite Hmiss. simpl. intros _.
  unfold App.getSynonymsForSentence_resume.
  destruct (App.promise_of _) as [o|]; simpl; [|congruence].
  destruct (nonempty_object o) eqn:Ho; simpl; [|congruence]. intros _.
  unfold App.loadSentenceSynonyms_finish. simpl. rewrite lookup_insert_eq.
  rewrite (nonempty_object_truthy_with_keys _ Ho). simpl.
  split; [reflexivity |]. split.
  { eexists. rewrite lookup_insert_eq. split; [reflexivity | done]. }
  unfold App.useEffect_synonyms. simpl.
  rewrite !lookup_insert_ne by done. rewrite Hc2, Hen, Htext, Hidle.
  assert (truthy_string (App.text c2) = true) as ->.
  { destruct (App.text c2); [discriminate Htext | done]. }
  simpl. rewrite Hkey, lookup_insert_eq. simpl.
  repeat split. eexists. rewrite lookup_insert_eq. split; [reflexivity | done].
Qed.

Lemma completed_lookup_serves_later_mount_witness :
  let w1 := (App.useEffect_synonyms 1 Samples.two_entries).1 in
  let resumed := App.getSynonymsForSentence_resume (App.text Samples.happy_entry)
                   (App.promise_of (CustomAIService.getSynonymsForSentence
                                      (Normal (Some Samples.answer_with_preamble))))
                   w1 in
  let w3 := App.loadSentenceSynonyms_finish 1 resumed.2 resumed.1 in
  App.provider_calls w3
    = App.provider_calls Samples.two_entries ++ [App.text Samples.happy_entry]
  /\ (exists c1', App.components w3 !! 1 = Some c1'
                  /\ App.sentenceSynonyms c1' = resumed.2
                  /\ App.isLoadingRef c1' = false)
  /\ (App.useEffect_synonyms 2 w3).2 = None
  /\ App.provider_calls (App.useEffect_synonyms 2 w3).1 = App.provider_calls w3
  /\ exists c2', App.components (App.useEffect_synonyms 2 w3).1 !! 2 = Some c2'
                 /\ App.sentenceSynonyms c2' = resumed.2.
Proof.
  apply (completed_lookup_serves_later_mount 1 2 Samples.happy_entry
           Samples.happy_entry (Normal (Some Samples.answer_with_preamble))
           Samples.two_entries); try (vm_compute; reflexivity).
  - discriminate.
  - vm_compute. discriminate.
Defined.

(** ** Text around the object in an answer *)

Lemma match_lazy_object_skip (pre s : string) :
  Lines.free_of "{" pre = true ->
  CustomAIService.match_lazy_object (pre +:+ s) = CustomAIService.match_lazy_object s.
Proof.
  unfold Lines.free_of. induction pre as [|c pre IH]; [done |].
  rewrite append_cons. simpl. intros [Hc Hpre]%andb_true_iff.
  destruct (c =? "{")%char; [discriminate | by apply IH].
Qed.

Lemma match_flat_object_skip (pre s : string) :
  Lines.free_of "{" pre = true ->
  CustomAIService.match_flat_object (pre +:+ s) = CustomAIService.match_flat_object s.
Proof.
  unfold Lines.free_of. induction pre as [|c pre IH]; [done |].
  rewrite append_cons. simpl. intros [Hc Hpre]%andb_true_iff.
  destruct (c =? "{")%char; [discriminate | by apply IH].
Qed.

Lemma until_close_body (body post : string) :
  Lines.free_of "}" body = true ->
  CustomAIService.until_close (body +:+ String "}" post)
  = Some (body +:+ String "}" EmptyString).
Proof.
  unfold Lines.free_of. induction body as [|c body IH]; [done |].
  rewrite !append_cons. simpl. intros [Hc Hbody]%andb_true_iff.
  destruct (c =? "}")%char; [discriminate |]. by rewrite IH.
Qed.

Lemma flat_body_body (body post : string) :
  Lines.free_of "{" body = true ->
  Lines.free_of "}" body = true ->
  CustomAIService.flat_body (body +:+ String "}" post)
  = Some (body +:+ String "}" EmptyString).
Proof.
  unfold Lines.free_of. induction body as [|c body IH]; [done |].
  rewrite !append_cons. simpl.
  intros [Hc1 Hb1]%andb_true_iff [Hc2 Hb2]%andb_true_iff.
  destruct (c =? "}")%char; [discriminate |].
  destruct (c =? "{")%char; [discriminate |]. by rewrite IH.
Qed.

Lemma filter_chars_append (keep : ascii -> bool) (s t : string) :
  filter_chars keep (s +:+ t) = filter_chars keep s +:+ filter_chars keep t.
Proof.
  induction s as [|c s IH]; [done |].
  rewrite append_cons. simpl. destruct (keep c); by rewrite IH.
Qed.

(** The result of the provider depends on the answer only through the two
    matches the source takes on it. *)
Lemma provider_same_matches (r1 r2 : string) :
  CustomAIService.match_lazy_object r1 = CustomAIService.match_lazy_object r2 ->
  CustomAIService.match_flat_object (strip_breaks r1)
  = CustomAIService.match_flat_object (strip_breaks r2) ->
  CustomAIService.getSynonymsForSentence (Normal (Some r1))
  = CustomAIService.getSynonymsForSentence (Normal (Some r2)).
Proof.
  intros Hlazy Hflat.
  unfold CustomAIService.getSynonymsForSentence, CustomAIService.String_match,
    CustomAIService.String_replace_breaks.
  simpl. by rewrite Hlazy, Hflat.
Qed.

Lemma strip_breaks_append (s t : string) :
  strip_breaks (s +:+ t) = strip_breaks s +:+ strip_breaks t.
Proof. apply filter_chars_append. Qed.

Lemma match_flat_object_answer (pre body post : string) :
  Lines.free_of "{" pre = true ->
  Lines.free_of "{" body = true ->
  Lines.free_of "}" body = true ->
  CustomAIService.match_flat_object
    (strip_breaks (pre +:+ String "{" (body +:+ String "}" post)))
  = Some (String "{" (strip_breaks body +:+ String "}" EmptyString)).
Proof.
  intros Hpre Hopen Hclose.
  rewrite strip_breaks_append.
  rewrite match_flat_object_skip by (by apply all_chars_filter_chars).
  change (strip_breaks (String "{" (body +:+ String "}" post)))
    with (String "{" (strip_breaks (body +:+ String "}" post))).
  rewrite strip_breaks_append.
  change (strip_breaks (String "}" post)) with (String "}" (strip_breaks post)).
  simpl.
  by rewrite flat_body_body by (by apply all_chars_filter_chars).
Qed.

(** X17. The provider reads the first brace pair and nothing else.  When
    the answer of the service is an object without inner braces, with
    text before it that holds no opening brace and any text after it,
    the provider returns what it returns for the object alone. *)
Theorem provider_ignores_surrounding_text (pre body post : string) :
  Lines.free_of "{" pre = true ->
  Lines.free_of "{" body = true ->
  Lines.free_of "}" body = true ->
  CustomAIService.getSynonymsForSentence
    (Normal (Some (pre +:+ String "{" (body +:+ String "}" post))))
  = CustomAIService.getSynonymsForSentence
      (Normal (Some (String "{" (body +:+ String "}" EmptyString)))).
Proof.
  intros Hpre Hopen Hclose. apply provider_same_matches.
  - rewrite (match_lazy_object_skip _ _ Hpre). simpl.
    by rewrite !(until_close_body _ _ Hclose).
  - rewrite (match_flat_object_answer pre body post Hpre Hopen Hclose).
    symmetry.
    exact (match_flat_object_answer EmptyString body EmptyString eq_refl
             Hopen Hclose).
Qed.

Lemma provider_ignores_surrounding_text_witness :
  CustomAIService.getSynonymsForSentence
    (Normal (Some ("Here you go: " +:+ String "{"
                     ((Samples.dq +:+ "sad" +:+ Samples.dq +:+ ":["
                         +:+ Samples.dq +:+ "unhappy" +:+ Samples.dq +:+ "]")
                        +:+ String "}" " Hope it helps {:"))))
  = CustomAIService.getSynonymsForSentence
      (Normal (Some (String "{"
                       ((Samples.dq +:+ "sad" +:+ Samples.dq +:+ ":["
                           +:+ Samples.dq +:+ "unhappy" +:+ Samples.dq +:+ "]")
                          +:+ String "}" EmptyString)))).
Proof.
  apply (provider_ignores_surrounding_text "Here you go: "
           (Samples.dq +:+ "sad" +:+ Samples.dq +:+ ":["
              +:+ Samples.dq +:+ "unhappy" +:+ Samples.dq +:+ "]")
           " Hope it helps {:");
    vm_compute; reflexivity.
Defined.

(** The sample: the object alone parses to the mapping of [sad]. *)
Example provider_object_alone :
  CustomAIService.getSynonymsForSentence
    (Normal (Some (String "{"
                     ((Samples.dq +:+ "sad" +:+ Samples.dq +:+ ":["
                         +:+ Samples.dq +:+ "unhappy" +:+ Samples.dq +:+ "]")
                        +:+ String "}" EmptyString))))
  = Return (JObj [("sad", JArr [JStr "unhappy"])]).
Proof. vm_compute. reflexivity. Qed.
